(** * Slack hooks for Cursor: thread store and reply listener

    A shallow embedding of [hooks/slack_common.py] (thread store:
    [_load_state], [_save_state], [save_thread_ts],
    [get_most_recent_thread]) and of [hooks/slack_listener.py]
    ([inject_message] and the body of the polling loop of
    [run_listener]), with the properties of the design document
    stated over them. *)

From Stdlib Require Import String Ascii.
From stdpp Require Import base option list sorting gmap.

(** ** Python strings

    A Python [str] is a sequence of code points; [<], [<=] and [==] on
    [str] compare code points lexicographically. *)

Module PyStr.

Local Open Scope N_scope.

Definition pystr : Type := list N.

(** An ASCII literal as a Python string. *)
Definition py (s : string) : pystr :=
  List.map N_of_ascii (list_ascii_of_string s).

Fixpoint compare (a b : pystr) : comparison :=
  match a, b with
  | [], [] => Eq
  | [], _ :: _ => Lt
  | _ :: _, [] => Gt
  | x :: a', y :: b' =>
      match N.compare x y with
      | Eq => compare a' b'
      | c => c
      end
  end.

(** [a < b], [a <= b] and [a == b] of Python. *)
Definition ltb (a b : pystr) : bool :=
  match compare a b with Lt => true | _ => false end.

Definition leb (a b : pystr) : bool :=
  match compare a b with Gt => false | _ => true end.

Definition eqb (a b : pystr) : bool :=
  match compare a b with Eq => true | _ => false end.

Definition lt (a b : pystr) : Prop := ltb a b = true.
Definition le (a b : pystr) : Prop := leb a b = true.

(** Truth value of a string: [bool(s)] is [len(s) > 0]. *)
Definition truthy (s : pystr) : bool :=
  match s with [] => false | _ :: _ => true end.

(** [str.isspace] on one code point (the white space table of CPython). *)
Definition isspace (c : N) : bool :=
  ((9 <=? c) && (c <=? 13)) || ((28 <=? c) && (c <=? 32))
  || (c =? 133) || (c =? 160) || (c =? 5760)
  || ((8192 <=? c) && (c <=? 8202))
  || (c =? 8232) || (c =? 8233) || (c =? 8239) || (c =? 8287)
  || (c =? 12288).

Fixpoint lstrip (s : pystr) : pystr :=
  match s with
  | c :: s' => if isspace c then lstrip s' else s
  | [] => []
  end.

(** [s.strip()] *)
Definition strip (s : pystr) : pystr :=
  List.rev (lstrip (List.rev (lstrip s))).

(** [s.replace(old, new)] for a one-character [old]. *)
Definition replace1 (old : N) (new : pystr) (s : pystr) : pystr :=
  List.flat_map (fun c => if c =? old then new else [c]) s.

End PyStr.

Abbreviation pystr := PyStr.pystr.
Abbreviation py := PyStr.py.

(** ** Insertion-ordered dictionaries

    A Python [dict] keeps its keys in insertion order; the scan of
    [get_most_recent_thread] and the stable [sorted] of [_save_state]
    both observe that order, so a dictionary is an association list with
    distinct keys. *)

Module Dict.

Abbreviation dict V := (list (pystr * V)).

Section Ops.
Context {V : Type}.

(** [d.get(k)] *)
Fixpoint get (k : pystr) (d : dict V) : option V :=
  match d with
  | [] => None
  | (k', v) :: d' => if PyStr.eqb k' k then Some v else get k d'
  end.

(** [d[k] = v]: an existing key keeps its position, a new key goes last. *)
Fixpoint set (k : pystr) (v : V) (d : dict V) : dict V :=
  match d with
  | [] => [(k, v)]
  | (k', v') :: d' =>
      if PyStr.eqb k' k then (k', v) :: d' else (k', v') :: set k v d'
  end.

(** [del d[k]] *)
Fixpoint del (k : pystr) (d : dict V) : dict V :=
  match d with
  | [] => []
  | (k', v) :: d' => if PyStr.eqb k' k then d' else (k', v) :: del k d'
  end.

(** [list(d)], the keys in iteration order. *)
Definition keys (d : dict V) : list pystr := fst <$> d.

(** [k in d] *)
Definition mem (k : pystr) (d : dict V) : bool :=
  match get k d with Some _ => true | None => false end.

End Ops.

End Dict.

(** ** The thread store ([slack_common.py]) *)

Module Store.

Import Dict.

(** One record of [threads.json]:
    [{ "thread_ts": "...", "file_id": "..." }], either key optional. *)
Record entry : Type := Entry {
  thread_ts : option pystr;
  file_id : option pystr
}.

(** A value of the document on disk: the legacy format maps a
    conversation to the bare [thread_ts] string, the current one to a
    record. These are the two formats the hooks write; a value that is
    neither (a number, [null], a list), which only a hand-edited file can
    hold, is outside this type, and so is everything the store functions
    do on it. *)
Inductive docval : Type :=
| Legacy (ts : pystr)
| Current (e : entry).

(** The content of [STATE_FILE]; [None] is a file that is missing or does
    not parse, on which [json.loads(STATE_FILE.read_text())] raises. *)
Definition document : Type := option (dict docval).

(** The body of the migration loop: [isinstance(v, str)]. *)
Definition migrate (v : docval) : entry :=
  match v with
  | Legacy ts => Entry (Some ts) None
  | Current e => e
  end.

Definition _load_state (file : document) : dict entry :=
  match file with
  | Some data =>
      fold_left (fun migrated kv => set kv.1 (migrate kv.2) migrated) data []
  | None => []
  end.

(** [sorted(xs, key=key)]: a stable sort. An element is placed before the
    first later element whose key is not smaller. *)
Fixpoint insert_by {A} (key : A -> pystr) (x : A) (l : list A) : list A :=
  match l with
  | [] => [x]
  | y :: l' =>
      if PyStr.leb (key x) (key y) then x :: l else y :: insert_by key x l'
  end.

Definition sorted {A} (key : A -> pystr) (l : list A) : list A :=
  foldr (insert_by key) [] l.

(** [state[k].get("thread_ts", "")] *)
Definition sort_key (state : dict entry) (k : pystr) : pystr :=
  match get k state with
  | Some e => default [] (thread_ts e)
  | None => []
  end.

(** The retention step of [_save_state]: the dictionary after the
    deletions. *)
Definition prune (state : dict entry) : dict entry :=
  if 100 <? length state then
    let ks := sorted (sort_key state) (keys state) in
    fold_left (fun st k => del k st) (take (length ks - 100) ks) state
  else state.

(** [_save_state(state)]: the document written to [STATE_FILE]. *)
Definition _save_state (state : dict entry) : document :=
  Some ((fun kv => (kv.1, Current kv.2)) <$> prune state).

Definition get_thread_ts (file : document) (conversation_id : pystr)
  : option pystr :=
  match get conversation_id (_load_state file) with
  | Some e => thread_ts e
  | None => None
  end.

Definition save_thread_ts (conversation_id ts : pystr) (file : document)
  : document :=
  let state := _load_state file in
  let state :=
    if mem conversation_id state then state
    else set conversation_id (Entry None None) state in
  let state :=
    match get conversation_id state with
    | Some e => set conversation_id (Entry (Some ts) (file_id e)) state
    | None => state
    end in
  _save_state state.

Definition save_transcript_file_id (conversation_id fid : pystr)
  (file : document) : document :=
  let state := _load_state file in
  let state :=
    if mem conversation_id state then state
    else set conversation_id (Entry None None) state in
  let state :=
    match get conversation_id state with
    | Some e => set conversation_id (Entry (thread_ts e) (Some fid)) state
    | None => state
    end in
  _save_state state.

(** The scan of [get_most_recent_thread]; the accumulator is
    [(latest_cid, latest_ts)]. *)
Definition scan_step (acc : option pystr * pystr) (kv : pystr * entry)
  : option pystr * pystr :=
  let ts := default (py "0") (thread_ts kv.2) in
  if PyStr.ltb acc.2 ts then (Some kv.1, ts) else acc.

Definition scan (state : dict entry) (acc : option pystr * pystr)
  : option pystr * pystr :=
  fold_left scan_step state acc.

(** [get_most_recent_thread()]; [None] is the pair [(None, None)]. *)
Definition get_most_recent_thread (file : document)
  : option (pystr * pystr) :=
  let state := _load_state file in
  match state with
  | [] => None
  | _ :: _ =>
      match scan state (None, py "0") with
      | (Some latest_cid, latest_ts) =>
          if PyStr.truthy latest_cid then Some (latest_cid, latest_ts)
          else None
      | (None, _) => None
      end
  end.

Definition get_transcript_file_id (file : document) (conversation_id : pystr)
  : option pystr :=
  match get conversation_id (_load_state file) with
  | Some e => file_id e
  | None => None
  end.

(** The write does not go over 100 links, so nothing is deleted. *)
Definition fits (file : document) (cid : pystr) : Prop :=
  length (_load_state file) < 100
  \/ (mem cid (_load_state file) = true /\ length (_load_state file) <= 100).

(** The keys [_save_state] deletes, [keys[:-100]]. *)
Definition evicted (state : dict entry) : list pystr :=
  let ks := sorted (sort_key state) (keys state) in
  take (length ks - 100) ks.

(** The order [sorted] sorts by. *)
Definition key_le {A} (key : A -> pystr) (a b : A) : Prop :=
  PyStr.le (key a) (key b).

(** [entry.get("thread_ts", "0")], the identifier the scan compares. *)
Definition entry_ts (e : entry) : pystr := default (py "0") (thread_ts e).

(** [entry.get("thread_ts", "")], the identifier [_save_state] sorts by. *)
Definition key_ts (e : entry) : pystr := default [] (thread_ts e).

(** The record of a conversation that has a thread and no transcript. *)
Definition link (ct : pystr * pystr) : pystr * entry :=
  (ct.1, Entry (Some ct.2) None).

(** A sample of [n] links: conversation [i] gets a thread identifier that
    grows with [i]. *)
Definition sample_links (n : nat) : list (pystr * pystr) :=
  (fun i => (py "conv-" ++ [N.of_nat (1000 + i)],
             py "1700000000." ++ [N.of_nat (1000 + i)])) <$> seq 0 n.

(** [save_thread_ts] for each link in turn. *)
Definition store_links (links : list (pystr * pystr)) (file : document)
  : document :=
  fold_left (fun f ct => save_thread_ts ct.1 ct.2 f) links file.

(** The design document's reading of a legacy value: the current-format
    record with only [thread_ts] populated. *)
Definition current_of_legacy (v : docval) : docval :=
  match v with
  | Legacy ts => Current (Entry (Some ts) None)
  | Current e => Current e
  end.

End Store.

(** ** The reply listener ([slack_listener.py]) *)

Module Listener.

(** A message of [conversations.replies] with the types Slack documents:
    every key is missing or holds a string. [raw_message] below lifts that
    restriction for the loop of [run_listener]. *)
Record message : Type := Message {
  ts : option pystr;
  bot_id : option pystr;
  user : option pystr;
  text : option pystr
}.

(** Truth value of [d.get(key)]: a present, non-empty string. *)
Definition opt_truthy (o : option pystr) : bool :=
  match o with Some s => PyStr.truthy s | None => false end.

(** The response of [auth.test]; [None] when the call raises. *)
Record auth_response : Type := AuthResponse {
  ok : bool;
  user_id : option pystr
}.

Definition get_bot_user_id (result : option auth_response) : option pystr :=
  match result with
  | Some r => if ok r then user_id r else None
  | None => None
  end.

(** Exceptions of [subprocess.run(..., timeout=10, check=True)]. *)
Inductive exn : Type :=
| TimeoutExpired
| CalledProcessError (stderr : pystr)
| OtherException (e : pystr).

Inductive log_entry : Type :=
| LogInjected (chars : nat)
| LogTimedOut
| LogFailed (stderr : pystr)
| LogError (e : pystr)
| LogNewReply (thread_ts preview : pystr).

(** What the loop reads and writes: the dictionary [listener_state], the
    file [listener.json] ([None]: missing or malformed), the scripts handed
    to [osascript] so far, and the log. *)
Record world : Type := World {
  listener_state : gmap pystr pystr;
  listener_file : option (gmap pystr pystr);
  runs : list pystr;
  logs : list log_entry
}.

Inductive result (A : Type) : Type :=
| Ok (a : A)
| Raise (e : exn).
Arguments Ok {A} a.
Arguments Raise {A} e.

(** Computations over the world that may raise. *)
Definition M (A : Type) : Type := world -> result A * world.

#[global] Instance M_ret : MRet M := fun A a w => (Ok a, w).

#[global] Instance M_bind : MBind M := fun A B f m w =>
  match m w with
  | (Ok a, w') => f a w'
  | (Raise e, w') => (Raise e, w')
  end.

(** [try: body except Exception as e: handler(e)] *)
Definition try_except {A} (body : M A) (handler : exn -> M A) : M A :=
  fun w =>
    match body w with
    | (Ok a, w') => (Ok a, w')
    | (Raise e, w') => handler e w'
    end.

(** [for x in l: body(x)] *)
Fixpoint for_each {A} (l : list A) (body : A -> M unit) : M unit :=
  match l with
  | [] => mret tt
  | x :: l' => body x ;; for_each l' body
  end.

Definition log (e : log_entry) : M unit :=
  fun w => (Ok tt, World (listener_state w) (listener_file w) (runs w)
                         (logs w ++ [e])).

(** [listener_state[thread_ts] = msg_ts] *)
Definition set_cursor (thread_ts msg_ts : pystr) : M unit :=
  fun w => (Ok tt, World (<[thread_ts := msg_ts]> (listener_state w))
                         (listener_file w) (runs w) (logs w)).

(** [listener_state.get(thread_ts, thread_ts)] *)
Definition cursor (st : gmap pystr pystr) (thread_ts : pystr) : pystr :=
  default thread_ts (st !! thread_ts).

Definition _load_listener_state (w : world) : gmap pystr pystr :=
  default ∅ (listener_file w).

Definition _save_listener_state : M unit :=
  fun w => (Ok tt, World (listener_state w) (Some (listener_state w))
                         (runs w) (logs w)).

Definition quote : pystr := [34%N].
Definition newline : pystr := [10%N].
Definition backslash : pystr := [92%N].

(** The AppleScript text built by [inject_message]. *)
Definition script_of (message shortcut_key : pystr) : pystr :=
  let escaped :=
    PyStr.replace1 34 (backslash ++ quote)
      (PyStr.replace1 92 (backslash ++ backslash) message) in
  py "set the clipboard to " ++ quote ++ escaped ++ quote ++ newline
  ++ py "tell application " ++ quote ++ py "Cursor" ++ quote
  ++ py " to activate" ++ newline
  ++ py "delay 0.5" ++ newline
  ++ py "tell application " ++ quote ++ py "System Events" ++ quote ++ newline
  ++ py "    keystroke " ++ quote ++ shortcut_key ++ quote
  ++ py " using command down" ++ newline
  ++ py "    delay 0.3" ++ newline
  ++ py "    keystroke " ++ quote ++ py "v" ++ quote
  ++ py " using command down" ++ newline
  ++ py "    delay 0.1" ++ newline
  ++ py "    key code 36" ++ newline
  ++ py "end tell" ++ newline.

(** One poll: the thread file as the hooks left it, and the answer of
    [get_thread_replies(thread_ts, oldest)] (the empty list on failure). *)
Record poll : Type := Poll {
  threads_file : Store.document;
  get_thread_replies : pystr -> pystr -> list message
}.

Section Loop.

(** The outcome of the [n]-th run of [osascript] on a script: [None] on
    exit status 0, otherwise the exception [subprocess.run] raises. *)
Variable osascript : nat -> pystr -> option exn.

Definition subprocess_run (script : pystr) : M unit :=
  fun w =>
    let w' := World (listener_state w) (listener_file w)
                    (runs w ++ [script]) (logs w) in
    match osascript (length (runs w)) script with
    | None => (Ok tt, w')
    | Some e => (Raise e, w')
    end.

Definition inject_message (message shortcut_key : pystr) : M unit :=
  let script := script_of message shortcut_key in
  try_except
    (subprocess_run script ;; log (LogInjected (length message)))
    (fun e =>
       match e with
       | TimeoutExpired => log LogTimedOut
       | CalledProcessError stderr => log (LogFailed stderr)
       | OtherException e => log (LogError e)
       end).

(** [text[:80]] followed by ["..."] when the text is longer. *)
Definition preview (text : pystr) : pystr :=
  take 80 text ++ (if 80 <? length text then py "..." else []).

(** [msg.get("ts", "")] *)
Definition msg_ts (msg : message) : pystr := default [] (ts msg).

(** The body of [for msg in replies]. *)
Definition handle_message (bot_user_id : option pystr)
    (shortcut_key thread_ts last_seen : pystr) (msg : message) : M unit :=
  let msg_ts := msg_ts msg in
  if PyStr.leb msg_ts last_seen then mret tt
  else if PyStr.eqb msg_ts thread_ts then mret tt
  else if opt_truthy (bot_id msg) then set_cursor thread_ts msg_ts
  else if opt_truthy bot_user_id && bool_decide (user msg = bot_user_id)
  then set_cursor thread_ts msg_ts
  else
    let text := PyStr.strip (default [] (text msg)) in
    if negb (PyStr.truthy text) then set_cursor thread_ts msg_ts
    else
      log (LogNewReply thread_ts (preview text)) ;;
      inject_message text shortcut_key ;;
      set_cursor thread_ts msg_ts.

(** The message passes the two skips at the head of the loop body: it is
    newer than the cursor of the start of the tick and is not the root. *)
Definition is_new (thread_ts last_seen : pystr) (msg : message) : bool :=
  negb (PyStr.leb (msg_ts msg) last_seen)
  && negb (PyStr.eqb (msg_ts msg) thread_ts).

(** The two bot tests of the loop body. *)
Definition bot_origin (bot_user_id : option pystr) (msg : message) : bool :=
  opt_truthy (bot_id msg)
  || (opt_truthy bot_user_id && bool_decide (user msg = bot_user_id)).

(** The message reaches the call of [inject_message]. *)
Definition qualifies (bot_user_id : option pystr)
    (thread_ts last_seen : pystr) (msg : message) : bool :=
  is_new thread_ts last_seen msg
  && negb (bot_origin bot_user_id msg)
  && PyStr.truthy (PyStr.strip (default [] (text msg))).

(** The script [inject_message] runs for a message. *)
Definition script_for (shortcut_key : pystr) (msg : message) : pystr :=
  script_of (PyStr.strip (default [] (text msg))) shortcut_key.

(** The line [inject_message] logs after the [n]-th run of [osascript]. *)
Definition outcome_log (n : nat) (message shortcut_key : pystr) : log_entry :=
  match osascript n (script_of message shortcut_key) with
  | None => LogInjected (length message)
  | Some TimeoutExpired => LogTimedOut
  | Some (CalledProcessError stderr) => LogFailed stderr
  | Some (OtherException e) => LogError e
  end.

(** The world after a message moved the cursor without an injection. *)
Definition moved (thread_ts : pystr) (msg : message) (w : world) : world :=
  World (<[thread_ts := msg_ts msg]> (listener_state w))
        (listener_file w) (runs w) (logs w).

(** The world after a message was handed to [inject_message]. *)
Definition delivered (shortcut_key thread_ts : pystr) (msg : message)
    (w : world) : world :=
  let text := PyStr.strip (default [] (text msg)) in
  World (<[thread_ts := msg_ts msg]> (listener_state w))
        (listener_file w)
        (runs w ++ [script_for shortcut_key msg])
        (logs w ++ [LogNewReply thread_ts (preview text);
                    outcome_log (length (runs w)) text shortcut_key]).

(** The messages of a tick that reach [inject_message], in order. *)
Definition injected (bot_user_id : option pystr)
    (thread_ts last_seen : pystr) (replies : list message) : list message :=
  filter (fun msg => qualifies bot_user_id thread_ts last_seen msg = true)
         replies.

(** The loop over the replies of one tick. *)
Definition handle_replies (bot_user_id : option pystr)
    (shortcut_key thread_ts last_seen : pystr) (replies : list message)
  : M unit :=
  for_each replies
    (handle_message bot_user_id shortcut_key thread_ts last_seen).

(** One iteration of [while running]. *)
Definition tick (bot_user_id : option pystr) (shortcut_key : pystr)
    (p : poll) : M unit :=
  match Store.get_most_recent_thread (threads_file p) with
  | None => mret tt
  | Some (_, thread_ts) =>
      if negb (PyStr.truthy thread_ts) then mret tt
      else
        fun w =>
          let last_seen := cursor (listener_state w) thread_ts in
          let replies := get_thread_replies p thread_ts last_seen in
          (handle_replies bot_user_id shortcut_key thread_ts last_seen
             replies ;;
           _save_listener_state) w
  end.

(** The polls made so far, one after the other. *)
Definition run_ticks (bot_user_id : option pystr) (shortcut_key : pystr)
    (polls : list poll) : M unit :=
  for_each polls (tick bot_user_id shortcut_key).

(** The world after the loop has read [replies]. *)
Definition after (bot_user_id : option pystr)
    (shortcut_key thread_ts last_seen : pystr) (replies : list message)
    (w : world) : world :=
  (handle_replies bot_user_id shortcut_key thread_ts last_seen replies w).2.

(** The world after the polls [polls]. *)
Definition after_ticks (bot_user_id : option pystr) (shortcut_key : pystr)
    (polls : list poll) (w : world) : world :=
  (run_ticks bot_user_id shortcut_key polls w).2.

(** [run_listener] over the polls made until shutdown is signalled. *)
Definition run_listener (auth : option auth_response)
    (shortcut_key : pystr) (polls : list poll) : M unit :=
  let bot_user_id := get_bot_user_id auth in
  fun w =>
    let w0 := World (_load_listener_state w) (listener_file w)
                    (runs w) (logs w) in
    run_ticks bot_user_id shortcut_key polls w0.

End Loop.


(** A thread with its root posted by the hook, a human reply and a reply
    of the hook. *)
Definition sample_thread : pystr := py "1700000000.000100".

Definition sample_root : message :=
  Message (Some sample_thread) (Some (py "B0HOOK")) (Some (py "U0HOOK"))
          (Some (py ":thread: *Cursor Agent Session*")).

Definition sample_reply : message :=
  Message (Some (py "1700000001.000200")) None (Some (py "U1HUMAN"))
          (Some (py " hi ")).

Definition sample_bot_reply : message :=
  Message (Some (py "1700000002.000300")) (Some (py "B0HOOK"))
          (Some (py "U0HOOK")) (Some (py "done")).

Definition sample_threads : Store.document :=
  Some [(py "conv-1", Store.Current (Store.Entry (Some sample_thread) None))].

Definition sample_poll : poll :=
  Poll sample_threads
       (fun _ _ => [sample_root; sample_reply; sample_bot_reply]).

Definition empty_world : world := World ∅ None [] [].

(** An [osascript] that always succeeds, and one that always times out. *)
Definition osascript_ok : nat -> pystr -> option exn := fun _ _ => None.

(** The message with another author. *)
Definition with_user (u : option pystr) (msg : message) : message :=
  Message (ts msg) (bot_id msg) u (text msg).

(** Every cursor of [st'] is at or above the cursor [st] has for the same
    thread. *)
Definition cursor_le (st st' : gmap pystr pystr) : Prop :=
  forall thread_ts, PyStr.le (cursor st thread_ts) (cursor st' thread_ts).

(** [get_thread_replies] answers in ascending order of [ts]. *)
Definition ascending (replies : list message) : Prop :=
  StronglySorted PyStr.le (msg_ts <$> replies).

(** What the loop needs of the list still to be read: it ascends, and
    every message in it that will move the cursor lies at or above the
    cursor as it is now. *)
Definition ahead (thread_ts last_seen : pystr) (w : world)
    (replies : list message) : Prop :=
  ascending replies
  /\ Forall (fun msg => is_new thread_ts last_seen msg = true ->
                        PyStr.le (cursor (listener_state w) thread_ts)
                                 (msg_ts msg)) replies.

(** *** Replies as JSON

    A key of a reply may also hold [null] or a value that is no string; the
    loop then raises where Python does: [None <= last_seen] is a
    [TypeError], [None.strip()] an [AttributeError]. *)

(** A JSON value as the loop looks at it: [null], a string, or anything
    else (a number, a boolean, a list, an object) with its truth value. *)
Inductive jval : Type :=
| JNull
| JStr (s : pystr)
| JOther (truth : bool).

#[global] Instance jval_eq_dec : EqDecision jval.
Proof. solve_decision. Defined.

Record raw_message : Type := RawMessage {
  raw_ts : option jval;
  raw_bot_id : option jval;
  raw_user : option jval;
  raw_text : option jval
}.

(** Truth value of [msg.get(key)] for any JSON value. *)
Definition jtruthy (v : option jval) : bool :=
  match v with
  | Some (JStr s) => PyStr.truthy s
  | Some (JOther truth) => truth
  | Some JNull | None => false
  end.

(** What can leave the loop: the two errors of an ill-typed reply, and an
    exception that [inject_message] would let through. *)
Inductive loop_exn : Type :=
| TypeError
| AttributeError
| Uncaught (e : exn).

(** The loop went on with a world, or raised in one. *)
Inductive outcome : Type :=
| Done (w : world)
| Raised (e : loop_exn) (w : world).

Definition run_M (m : M unit) (w : world) : outcome :=
  match m w with
  | (Ok _, w') => Done w'
  | (Raise e, w') => Raised (Uncaught e) w'
  end.

(** A reply with documented types, as JSON. *)
Definition raw_of (msg : message) : raw_message :=
  RawMessage (JStr <$> ts msg) (JStr <$> bot_id msg) (JStr <$> user msg)
             (JStr <$> text msg).

Record raw_poll : Type := RawPoll {
  raw_threads_file : Store.document;
  raw_get_thread_replies : pystr -> pystr -> list raw_message
}.


Section RawLoop.

Variable osascript : nat -> pystr -> option exn.

(** The body of [for msg in replies] on a JSON reply. *)
Definition handle_raw_message (bot_user_id : option pystr)
    (shortcut_key thread_ts last_seen : pystr) (msg : raw_message)
    (w : world) : outcome :=
  match default (JStr []) (raw_ts msg) with
  | JStr msg_ts =>
      if PyStr.leb msg_ts last_seen then Done w
      else if PyStr.eqb msg_ts thread_ts then Done w
      else if jtruthy (raw_bot_id msg)
      then run_M (set_cursor thread_ts msg_ts) w
      else if opt_truthy bot_user_id
              && bool_decide (raw_user msg = JStr <$> bot_user_id)
      then run_M (set_cursor thread_ts msg_ts) w
      else
        match default (JStr []) (raw_text msg) with
        | JStr text =>
            let text := PyStr.strip text in
            if negb (PyStr.truthy text)
            then run_M (set_cursor thread_ts msg_ts) w
            else
              run_M (log (LogNewReply thread_ts (preview text)) ;;
                     inject_message osascript text shortcut_key ;;
                     set_cursor thread_ts msg_ts) w
        | JNull | JOther _ => Raised AttributeError w
        end
  | JNull | JOther _ => Raised TypeError w
  end.

(** [for msg in replies]: an exception ends the loop. *)
Fixpoint handle_raw_replies (bot_user_id : option pystr)
    (shortcut_key thread_ts last_seen : pystr) (replies : list raw_message)
    (w : world) : outcome :=
  match replies with
  | [] => Done w
  | msg :: rest =>
      match handle_raw_message bot_user_id shortcut_key thread_ts last_seen
              msg w with
      | Done w' =>
          handle_raw_replies bot_user_id shortcut_key thread_ts last_seen
            rest w'
      | Raised e w' => Raised e w'
      end
  end.

(** One iteration of [while running]; an exception of the loop leaves it
    before [_save_listener_state]. *)
Definition raw_tick (bot_user_id : option pystr) (shortcut_key : pystr)
    (p : raw_poll) (w : world) : outcome :=
  match Store.get_most_recent_thread (raw_threads_file p) with
  | None => Done w
  | Some (_, thread_ts) =>
      if negb (PyStr.truthy thread_ts) then Done w
      else
        let last_seen := cursor (listener_state w) thread_ts in
        let replies := raw_get_thread_replies p thread_ts last_seen in
        match handle_raw_replies bot_user_id shortcut_key thread_ts
                last_seen replies w with
        | Done w' => run_M _save_listener_state w'
        | Raised e w' => Raised e w'
        end
  end.

(** [while running]: an exception ends [run_listener]. *)
Fixpoint raw_run_ticks (bot_user_id : option pystr) (shortcut_key : pystr)
    (polls : list raw_poll) (w : world) : outcome :=
  match polls with
  | [] => Done w
  | p :: rest =>
      match raw_tick bot_user_id shortcut_key p w with
      | Done w' => raw_run_ticks bot_user_id shortcut_key rest w'
      | Raised e w' => Raised e w'
      end
  end.

End RawLoop.

(** The key is missing or holds a string. *)
Definition string_or_missing (v : option jval) : bool :=
  match v with
  | Some (JStr _) | None => true
  | Some JNull | Some (JOther _) => false
  end.

(** The [escaped] text of [inject_message]. *)
Definition escape (message : pystr) : pystr :=
  PyStr.replace1 34 (backslash ++ quote)
    (PyStr.replace1 92 (backslash ++ backslash) message).

(** One character as the two [replace] calls leave it. *)
Definition escape_char (c : N) : pystr :=
  if (c =? 92)%N then backslash ++ backslash
  else if (c =? 34)%N then backslash ++ quote
  else [c].

(** The text of a string literal read back: a backslash stands for the
    character after it. *)
Fixpoint unescape (s : pystr) : pystr :=
  match s with
  | [] => []
  | c :: s' =>
      if (c =? 92)%N then
        match s' with
        | d :: s'' => d :: unescape s''
        | [] => [c]
        end
      else c :: unescape s'
  end.

(** The text can stand between the quotes of a string literal: every
    backslash is followed by a backslash or a quote, and there is no other
    quote. *)
Fixpoint well_escaped (s : pystr) : bool :=
  match s with
  | [] => true
  | c :: s' =>
      if (c =? 92)%N then
        match s' with
        | d :: s'' => ((d =? 92)%N || (d =? 34)%N) && well_escaped s''
        | [] => false
        end
      else if (c =? 34)%N then false
      else well_escaped s'
  end.

(** The dictionary in memory is what the file holds. *)
Definition synced (w : world) : Prop :=
  listener_state w = _load_listener_state w.

(** The last message of the poll that moves the cursor. *)
Definition last_new (thread_ts last_seen : pystr) (replies : list message)
  : option message :=
  last (filter (fun msg => is_new thread_ts last_seen msg = true) replies).

End Listener.

(** ** The thread title ([extract_chat_title]) *)

Module Title.

Definition start_tag : pystr := py "<user_query>".
Definition end_tag : pystr := py "</user_query>".
Definition default_title : pystr := py "Cursor Agent Session".

(** [s.startswith(sub)] *)
Fixpoint starts_with (sub s : pystr) : bool :=
  match sub, s with
  | [], _ => true
  | _ :: _, [] => false
  | a :: sub', b :: s' => (a =? b)%N && starts_with sub' s'
  end.

(** The lowest index, counted from [i], at which [sub] starts in [s]. *)
Fixpoint find_from (sub s : pystr) (i : nat) : option nat :=
  if starts_with sub s then Some i
  else match s with
       | [] => None
       | _ :: s' => find_from sub s' (S i)
       end.

(** [s.find(sub, start)]; [None] is the answer [-1]. *)
Definition find (sub s : pystr) (start : nat) : option nat :=
  if start <=? length s then find_from sub (drop start s) start else None.

(** [s[start:stop]] for indices within the string. *)
Definition slice (s : pystr) (start stop : nat) : pystr :=
  take (stop - start) (drop start s).

(** [s.split("\n")[0]] *)
Fixpoint first_line (s : pystr) : pystr :=
  match s with
  | [] => []
  | c :: s' => if (c =? 10)%N then [] else c :: first_line s'
  end.

(** [sub] occurs in [s] at index [j]. *)
Definition occurs_at (sub s : pystr) (j : nat) : Prop :=
  exists pre rest, s = pre ++ sub ++ rest /\ length pre = j.

(** The cut to 150 characters at the end of [extract_chat_title]. *)
Definition shorten (line : pystr) : pystr :=
  if 150 <? length line then take 147 line ++ py "..." else line.

(** [extract_chat_title(transcript_path)] on the text of the transcript;
    [None] for an empty path, a path that is no file, and a file that
    cannot be read. *)
Definition extract_chat_title (transcript : option pystr) : option pystr :=
  match transcript with
  | None => None
  | Some content =>
      match find start_tag content 0 with
      | None => None
      | Some start =>
          let start := start + length start_tag in
          match find end_tag content start with
          | None => None
          | Some stop =>
              let query := PyStr.strip (slice content start stop) in
              Some (shorten (PyStr.strip (first_line query)))
          end
      end
  end.

(** The title [ensure_thread] posts. *)
Definition thread_title (transcript : option pystr) : pystr :=
  match extract_chat_title transcript with
  | Some title => if PyStr.truthy title then title else default_title
  | None => default_title
  end.

(** The text of the root message, [":thread: *{title}*"]. *)
Definition thread_message (transcript : option pystr) : pystr :=
  py ":thread: *" ++ thread_title transcript ++ py "*".

End Title.

(** ** Posting from the hooks ([ensure_thread], [post_message]) *)

Module Hooks.

(** The answer of [chat.postMessage]: [result.get("ok")] and
    [result.get("ts")]. *)
Record post_response : Type := PostResponse {
  post_ok : bool;
  post_ts : option pystr
}.

(** The payload of one [chat.postMessage]. *)
Record payload : Type := Payload {
  channel : pystr;
  body : pystr;
  in_thread : option pystr
}.

(** The thread file and the payloads posted so far. *)
Record hook_world : Type := HookWorld {
  threads : Store.document;
  posts : list payload
}.

Section Remote.

Variable SLACK_CHANNEL_ID : pystr.

(** The outcome of the [n]-th [chat.postMessage]; [None]: the call
    raises. *)
Variable chat_postMessage : nat -> payload -> option post_response.

Definition slack_post (p : payload) (w : hook_world)
  : option post_response * hook_world :=
  (chat_postMessage (length (posts w)) p,
   HookWorld (threads w) (posts w ++ [p])).

(** The part of [ensure_thread] that creates the thread. *)
Definition create_thread (conversation_id : pystr)
    (transcript : option pystr) (w : hook_world)
  : option pystr * hook_world :=
  let message := Title.thread_message transcript in
  match slack_post (Payload SLACK_CHANNEL_ID message None) w with
  | (None, w') => (None, w')
  | (Some result, w') =>
      if negb (post_ok result) then (None, w')
      else
        match post_ts result with
        | Some ts =>
            if PyStr.truthy ts
            then (Some ts,
                  HookWorld (Store.save_thread_ts conversation_id ts
                               (threads w'))
                            (posts w'))
            else (Some ts, w')
        | None => (None, w')
        end
  end.

Definition ensure_thread (conversation_id : pystr)
    (transcript : option pystr) (w : hook_world)
  : option pystr * hook_world :=
  let thread_ts := Store.get_thread_ts (threads w) conversation_id in
  if Listener.opt_truthy thread_ts then (thread_ts, w)
  else create_thread conversation_id transcript w.

Definition post_message (text conversation_id : pystr)
    (transcript : option pystr) (w : hook_world)
  : option pystr * hook_world :=
  let (thread_ts, w1) := ensure_thread conversation_id transcript w in
  let p := Payload SLACK_CHANNEL_ID text
             (if Listener.opt_truthy thread_ts then thread_ts else None) in
  let (_, w2) := slack_post p w1 in
  (thread_ts, w2).

End Remote.

(** The thread identifier [ensure_thread] takes from an answer of
    [chat.postMessage]: the answer is [ok] and has a non-empty [ts]. *)
Definition new_thread (r : option post_response) : option pystr :=
  match r with
  | Some r =>
      if post_ok r then
        match post_ts r with
        | Some ts => if PyStr.truthy ts then Some ts else None
        | None => None
        end
      else None
  | None => None
  end.

(** A remote that accepts every post and stamps it with its number. *)
Definition accepting_remote : nat -> payload -> option post_response :=
  fun n _ => Some (PostResponse true (Some (py "1700000000." ++ [N.of_nat (1000 + n)]))).

(** A remote on which every call raises. *)
Definition failing_remote : nat -> payload -> option post_response :=
  fun _ _ => None.

Definition empty_hook_world : hook_world := HookWorld None [].

End Hooks.

(** ** Facts about the string order *)

Module PyStrFacts.

Import PyStr.

Local Open Scope N_scope.

Lemma compare_refl a : compare a a = Eq.
Proof.
  induction a as [|x a IH]; simpl; [reflexivity|].
  rewrite N.compare_refl. exact IH.
Qed.

Lemma compare_eq a b : compare a b = Eq -> a = b.
Proof.
  revert b; induction a as [|x a IH]; intros [|y b]; simpl;
    try discriminate; [reflexivity|].
  destruct (N.compare_spec x y) as [->| |]; try discriminate.
  intros H. f_equal. apply IH, H.
Qed.

Lemma compare_antisym a b : compare b a = CompOpp (compare a b).
Proof.
  revert b; induction a as [|x a IH]; intros [|y b]; simpl; try reflexivity.
  rewrite (N.compare_antisym x y).
  destruct (N.compare x y); simpl; auto.
Qed.

Lemma compare_lt_trans a b c :
  compare a b = Lt -> compare b c = Lt -> compare a c = Lt.
Proof.
  revert b c; induction a as [|x a IH]; intros [|y b] [|z c]; simpl;
    try discriminate; try reflexivity.
  destruct (N.compare_spec x y) as [->|Hxy|Hxy]; try discriminate.
  - destruct (N.compare_spec y z) as [->|Hyz|Hyz]; try discriminate.
    + apply IH.
    + reflexivity.
  - intros _.
    destruct (N.compare_spec y z) as [->|Hyz|Hyz]; try discriminate.
    + intros _. apply N.compare_lt_iff in Hxy. rewrite Hxy. reflexivity.
    + intros _. assert (H : x < z) by (etransitivity; eassumption).
      apply N.compare_lt_iff in H. rewrite H. reflexivity.
Qed.

Lemma eqb_eq a b : eqb a b = true <-> a = b.
Proof.
  unfold eqb. split.
  - destruct (compare a b) eqn:E; try discriminate.
    intros _. apply compare_eq, E.
  - intros ->. rewrite compare_refl. reflexivity.
Qed.

Lemma eqb_neq a b : eqb a b = false <-> a <> b.
Proof.
  rewrite <- eqb_eq. destruct (eqb a b); split; congruence.
Qed.

Lemma leb_refl a : leb a a = true.
Proof. unfold leb. rewrite compare_refl. reflexivity. Qed.

Lemma ltb_irrefl a : ltb a a = false.
Proof. unfold ltb. rewrite compare_refl. reflexivity. Qed.

Lemma leb_negb_ltb a b : leb a b = negb (ltb b a).
Proof.
  unfold leb, ltb. rewrite (compare_antisym a b).
  destruct (compare a b); reflexivity.
Qed.

Lemma ltb_leb a b : ltb a b = true -> leb a b = true.
Proof. unfold ltb, leb. destruct (compare a b); congruence. Qed.

Lemma leb_cases a b : leb a b = true <-> ltb a b = true \/ a = b.
Proof.
  unfold leb, ltb. split.
  - destruct (compare a b) eqn:E; try discriminate; auto.
    right. apply compare_eq, E.
  - intros [H| ->].
    + destruct (compare a b); congruence.
    + rewrite compare_refl. reflexivity.
Qed.

Lemma ltb_trans a b c : ltb a b = true -> ltb b c = true -> ltb a c = true.
Proof.
  unfold ltb. destruct (compare a b) eqn:E1; try discriminate.
  destruct (compare b c) eqn:E2; try discriminate.
  rewrite (compare_lt_trans _ _ _ E1 E2). reflexivity.
Qed.

Lemma leb_trans a b c : leb a b = true -> leb b c = true -> leb a c = true.
Proof.
  rewrite !leb_cases. intros [H1| ->] [H2| ->]; auto.
  left. eapply ltb_trans; eassumption.
Qed.

Lemma ltb_leb_trans a b c :
  ltb a b = true -> leb b c = true -> ltb a c = true.
Proof.
  rewrite leb_cases. intros H1 [H2| <-]; auto.
  eapply ltb_trans; eassumption.
Qed.

Lemma leb_ltb_trans a b c :
  leb a b = true -> ltb b c = true -> ltb a c = true.
Proof.
  rewrite leb_cases. intros [H1| ->] H2; auto.
  eapply ltb_trans; eassumption.
Qed.

Lemma leb_total a b : leb a b = true \/ leb b a = true.
Proof.
  unfold leb. rewrite (compare_antisym a b).
  destruct (compare a b); simpl; auto.
Qed.

Lemma leb_antisym a b : leb a b = true -> leb b a = true -> a = b.
Proof.
  rewrite (leb_negb_ltb b a). rewrite leb_cases.
  intros [H| ->]; [rewrite H; discriminate | reflexivity].
Qed.

Lemma ltb_neq a b : ltb a b = true -> a <> b.
Proof. intros H ->. rewrite ltb_irrefl in H. discriminate. Qed.

#[global] Instance lt_trans : Transitive lt.
Proof. intros a b c. apply ltb_trans. Qed.

#[global] Instance le_trans : Transitive le.
Proof. intros a b c. apply leb_trans. Qed.

#[global] Instance le_refl : Reflexive le.
Proof. intros a. apply leb_refl. Qed.

#[global] Instance lt_dec a b : Decision (lt a b).
Proof. unfold lt. apply _. Defined.

#[global] Instance le_dec a b : Decision (le a b).
Proof. unfold le. apply _. Defined.

End PyStrFacts.

(** ** Facts about dictionaries *)

Module DictFacts.

Import Dict.

Section Facts.
Context {V : Type}.
Implicit Types (d : dict V) (k : pystr) (v : V).

Lemma eqb_true k k' : PyStr.eqb k k' = true <-> k = k'.
Proof. apply PyStrFacts.eqb_eq. Qed.

Lemma eqb_false k k' : PyStr.eqb k k' = false <-> k <> k'.
Proof. apply PyStrFacts.eqb_neq. Qed.

Lemma set_fresh k v d : k ∉ keys d -> set k v d = d ++ [(k, v)].
Proof.
  induction d as [|[k' v'] d IH]; simpl; intros Hk; [reflexivity|].
  apply not_elem_of_cons in Hk as [Hne Hk].
  destruct (PyStr.eqb k' k) eqn:E.
  - apply eqb_true in E. congruence.
  - rewrite IH by exact Hk. reflexivity.
Qed.

Lemma get_fresh k d : k ∉ keys d -> get k d = None.
Proof.
  induction d as [|[k' v'] d IH]; simpl; intros Hk; [reflexivity|].
  apply not_elem_of_cons in Hk as [Hne Hk].
  destruct (PyStr.eqb k' k) eqn:E.
  - apply eqb_true in E. congruence.
  - apply IH, Hk.
Qed.

Lemma get_app_fresh k v d : k ∉ keys d -> get k (d ++ [(k, v)]) = Some v.
Proof.
  induction d as [|[k' v'] d IH]; simpl; intros Hk.
  - rewrite (proj2 (eqb_true k k) eq_refl). reflexivity.
  - apply not_elem_of_cons in Hk as [Hne Hk].
    destruct (PyStr.eqb k' k) eqn:E.
    + apply eqb_true in E. congruence.
    + apply IH, Hk.
Qed.

Lemma set_last k v v' d : k ∉ keys d -> set k v (d ++ [(k, v')]) = d ++ [(k, v)].
Proof.
  induction d as [|[k' w] d IH]; simpl; intros Hk.
  - rewrite (proj2 (eqb_true k k) eq_refl). reflexivity.
  - apply not_elem_of_cons in Hk as [Hne Hk].
    destruct (PyStr.eqb k' k) eqn:E.
    + apply eqb_true in E. congruence.
    + rewrite IH by exact Hk. reflexivity.
Qed.

Lemma get_elem_of k v d : NoDup (keys d) -> (k, v) ∈ d -> get k d = Some v.
Proof.
  induction d as [|[k' v'] d IH]; simpl; intros Hnd Hin.
  - inversion Hin.
  - apply NoDup_cons in Hnd as [Hk' Hnd].
    apply elem_of_cons in Hin as [Heq|Hin].
    + inversion Heq; subst.
      rewrite (proj2 (eqb_true k' k') eq_refl). reflexivity.
    + destruct (PyStr.eqb k' k) eqn:E.
      * apply eqb_true in E. subst k'. exfalso. apply Hk'.
        unfold keys. apply list_elem_of_fmap. exists (k, v). split; auto.
      * apply IH; assumption.
Qed.

Lemma get_Some_elem_of k v d : get k d = Some v -> (k, v) ∈ d.
Proof.
  induction d as [|[k' v'] d IH]; simpl; [discriminate|].
  destruct (PyStr.eqb k' k) eqn:E.
  - apply eqb_true in E. intros [= ->]. subst. left.
  - intros H. right. apply IH, H.
Qed.

Lemma del_fresh k d : k ∉ keys d -> del k d = d.
Proof.
  induction d as [|[k' v'] d IH]; simpl; intros Hk; [reflexivity|].
  apply not_elem_of_cons in Hk as [Hne Hk].
  destruct (PyStr.eqb k' k) eqn:E.
  - apply eqb_true in E. congruence.
  - rewrite IH by exact Hk. reflexivity.
Qed.

(** With distinct keys, [del] removes exactly the entries of that key. *)
Lemma del_filter k d :
  NoDup (keys d) -> del k d = filter (fun kv => kv.1 <> k) d.
Proof.
  induction d as [|[k' v'] d IH]; cbn [del]; intros Hnd; [reflexivity|].
  apply NoDup_cons in Hnd as [Hk' Hnd].
  destruct (PyStr.eqb k' k) eqn:E.
  - apply eqb_true in E. subst k'.
    rewrite filter_cons_False by (simpl; auto).
    rewrite <- IH by exact Hnd. symmetry. apply del_fresh, Hk'.
  - apply eqb_false in E.
    rewrite filter_cons_True by (simpl; auto).
    rewrite IH by exact Hnd. reflexivity.
Qed.

Lemma keys_filter (P : pystr -> Prop) `{!forall k, Decision (P k)} d :
  keys (filter (fun kv => P kv.1) d) = filter P (keys d).
Proof.
  induction d as [|[k' v'] d IH]; [reflexivity|].
  unfold keys in *. rewrite fmap_cons. simpl fst.
  destruct (decide (P k')) as [Hp|Hp].
  - rewrite !filter_cons_True by (simpl; auto).
    rewrite fmap_cons, IH. reflexivity.
  - rewrite !filter_cons_False by (simpl; auto). exact IH.
Qed.

Lemma keys_filter_NoDup (P : pystr -> Prop) `{!forall k, Decision (P k)} d :
  NoDup (keys d) -> NoDup (keys (filter (fun kv => P kv.1) d)).
Proof.
  intros Hnd. rewrite keys_filter. apply NoDup_filter, Hnd.
Qed.

Lemma dels_filter (ks : list pystr) d :
  NoDup (keys d) ->
  fold_left (fun st k => del k st) ks d = filter (fun kv => kv.1 ∉ ks) d.
Proof.
  revert d. induction ks as [|k ks IH]; intros d Hnd; cbn [fold_left].
  - symmetry. induction d as [|x d IHd]; [reflexivity|].
    rewrite filter_cons_True by (apply not_elem_of_nil).
    f_equal. apply IHd. apply NoDup_cons in Hnd as [_ Hnd]. exact Hnd.
  - rewrite del_filter by exact Hnd.
    pose proof (keys_filter_NoDup (fun k' => k' <> k) d Hnd) as Hnd'.
    rewrite IH by exact Hnd'.
    rewrite list_filter_filter. apply list_filter_iff.
    intros [k' v']. simpl. rewrite not_elem_of_cons. tauto.
Qed.

Lemma get_set_eq k v d : get k (set k v d) = Some v.
Proof.
  induction d as [|[k' v'] d IH]; simpl.
  - rewrite (proj2 (eqb_true k k) eq_refl). reflexivity.
  - destruct (PyStr.eqb k' k) eqn:E; simpl; rewrite E; [reflexivity|exact IH].
Qed.

Lemma get_set_ne k k' v d : k <> k' -> get k' (set k v d) = get k' d.
Proof.
  intros Hne. induction d as [|[k0 v0] d IH]; simpl.
  - apply eqb_false in Hne. rewrite Hne. reflexivity.
  - destruct (PyStr.eqb k0 k) eqn:E; simpl.
    + apply eqb_true in E. subst k0.
      apply eqb_false in Hne. rewrite Hne. reflexivity.
    + destruct (PyStr.eqb k0 k'); [reflexivity|exact IH].
Qed.

Lemma mem_elem_of k d : mem k d = true <-> k ∈ keys d.
Proof.
  unfold mem. induction d as [|[k' v'] d IH]; simpl.
  - split; [discriminate|]. intros H. inversion H.
  - destruct (PyStr.eqb k' k) eqn:E.
    + apply eqb_true in E. subst. split; [intros _; left|reflexivity].
    + apply eqb_false in E. rewrite IH. unfold keys.
      change (k ∈ fst <$> d <-> k ∈ k' :: (fst <$> d)).
      rewrite elem_of_cons. split; [auto|]. intros [H|H]; congruence.
Qed.

(** Assigning to a key that is present keeps the keys and their order. *)
Lemma keys_set_mem k v d : k ∈ keys d -> keys (set k v d) = keys d.
Proof.
  induction d as [|[k' v'] d IH]; intros Hin.
  - inversion Hin.
  - cbn [set]. destruct (PyStr.eqb k' k) eqn:E; [reflexivity|].
    unfold keys in *. rewrite !fmap_cons. f_equal. apply IH.
    rewrite fmap_cons in Hin.
    apply elem_of_cons in Hin as [Hin|Hin]; [|exact Hin].
    apply eqb_false in E. simpl in Hin. congruence.
Qed.

Lemma keys_set_fresh k v d : k ∉ keys d -> keys (set k v d) = keys d ++ [k].
Proof.
  intros Hk. rewrite set_fresh by exact Hk. unfold keys.
  rewrite fmap_app. reflexivity.
Qed.

Lemma set_NoDup k v d : NoDup (keys d) -> NoDup (keys (set k v d)).
Proof.
  intros Hnd. destruct (decide (k ∈ keys d)) as [Hin|Hout].
  - rewrite keys_set_mem by exact Hin. exact Hnd.
  - rewrite keys_set_fresh by exact Hout.
    apply NoDup_app. split; [exact Hnd|]. split.
    + intros x Hx Hx'. apply list_elem_of_singleton in Hx'. congruence.
    + apply NoDup_singleton.
Qed.

Lemma length_set_mem k v d : k ∈ keys d -> length (set k v d) = length d.
Proof.
  intros Hin. pose proof (keys_set_mem k v d Hin) as H.
  apply (f_equal length) in H. unfold keys in H.
  rewrite !length_fmap in H. exact H.
Qed.

Lemma length_set_fresh k v d :
  k ∉ keys d -> length (set k v d) = S (length d).
Proof.
  intros Hk. rewrite set_fresh by exact Hk. rewrite length_app. simpl. lia.
Qed.

Lemma length_set_le k v d : length (set k v d) <= S (length d).
Proof.
  destruct (decide (k ∈ keys d)) as [Hin|Hout].
  - rewrite length_set_mem by exact Hin. lia.
  - rewrite length_set_fresh by exact Hout. lia.
Qed.

End Facts.

End DictFacts.

(** ** Properties of the thread store *)

Module StoreFacts.

Import Dict Store DictFacts.

Lemma load_fold_fresh (data : dict docval) (acc : dict entry) :
  NoDup (keys acc ++ keys data) ->
  fold_left (fun migrated kv => set kv.1 (migrate kv.2) migrated) data acc
  = acc ++ ((fun kv => (kv.1, migrate kv.2)) <$> data).
Proof.
  revert acc. induction data as [|[k v] data IH]; intros acc Hnd.
  - simpl. rewrite app_nil_r. reflexivity.
  - cbn [fold_left fst snd]. rewrite set_fresh.
    + rewrite IH.
      * rewrite <- app_assoc. reflexivity.
      * unfold keys in *. rewrite fmap_app, <- app_assoc. exact Hnd.
    + apply NoDup_app in Hnd as (_ & Hdisj & _).
      intros Hin. apply (Hdisj _ Hin). left.
Qed.

(** A document with distinct keys is loaded entry for entry, in order. *)
Lemma load_state_fmap (data : dict docval) :
  NoDup (keys data) ->
  _load_state (Some data) = (fun kv => (kv.1, migrate kv.2)) <$> data.
Proof.
  intros Hnd. unfold _load_state. rewrite load_fold_fresh; auto.
Qed.

Lemma load_state_keys (data : dict docval) :
  NoDup (keys data) -> keys (_load_state (Some data)) = keys data.
Proof.
  intros Hnd. rewrite load_state_fmap by exact Hnd.
  unfold keys. rewrite <- list_fmap_compose. reflexivity.
Qed.

Lemma migrate_current_of_legacy v : migrate (current_of_legacy v) = migrate v.
Proof. destruct v; reflexivity. Qed.

Lemma load_fold_upgrade (data : dict docval) (acc : dict entry) :
  fold_left (fun migrated kv => set kv.1 (migrate kv.2) migrated)
    ((fun kv => (kv.1, current_of_legacy kv.2)) <$> data) acc
  = fold_left (fun migrated kv => set kv.1 (migrate kv.2) migrated) data acc.
Proof.
  revert acc. induction data as [|[k v] data IH]; intros acc; [reflexivity|].
  rewrite fmap_cons. cbn [fold_left fst snd].
  rewrite migrate_current_of_legacy. apply IH.
Qed.

(** C6. Loading a document equals loading the same document with every
    legacy value (a bare [thread_ts] string) replaced by the current-format
    record that has only [thread_ts] populated; and nothing is lost: the
    keys of a legacy document are kept in order and the thread of each
    conversation reads back as the string the legacy document held. *)
Theorem legacy_load_refines_current (data : dict docval) :
  _load_state (Some data)
  = _load_state (Some ((fun kv => (kv.1, current_of_legacy kv.2)) <$> data))
  /\ (NoDup (keys data) ->
      keys (_load_state (Some data)) = keys data
      /\ forall cid ts,
           (cid, Legacy ts) ∈ data ->
           get cid (_load_state (Some data)) = Some (Entry (Some ts) None)
           /\ get_thread_ts (Some data) cid = Some ts).
Proof.
  split.
  - unfold _load_state. symmetry. apply load_fold_upgrade.
  - intros Hnd. split; [apply load_state_keys, Hnd|].
    intros cid ts Hin.
    assert (Hget : get cid (_load_state (Some data))
                   = Some (Entry (Some ts) None)).
    { apply get_elem_of.
      - rewrite load_state_keys; assumption.
      - rewrite load_state_fmap by exact Hnd.
        apply list_elem_of_fmap. exists (cid, Legacy ts). split; auto. }
    split; [exact Hget|].
    unfold get_thread_ts. rewrite Hget. reflexivity.
Qed.

Lemma legacy_load_refines_current_witness :
  let data := [(py "conv-1", Legacy (py "1700000000.000100"));
               (py "conv-2", Current (Entry (Some (py "1700000001.000200"))
                                            (Some (py "F1"))))] in
  keys (_load_state (Some data)) = keys data
  /\ forall cid ts,
       (cid, Legacy ts) ∈ data ->
       get cid (_load_state (Some data)) = Some (Entry (Some ts) None)
       /\ get_thread_ts (Some data) cid = Some ts.
Proof.
  intros data.
  apply (proj2 (legacy_load_refines_current data)).
  apply (bool_decide_unpack _). vm_compute. exact I.
Defined.

(** *** The scan of [get_most_recent_thread] *)

Lemma scan_cons kv state acc :
  scan (kv :: state) acc = scan state (scan_step acc kv).
Proof. reflexivity. Qed.

Lemma scan_app l1 l2 acc : scan (l1 ++ l2) acc = scan l2 (scan l1 acc).
Proof. unfold scan. apply fold_left_app. Qed.

(** Links that do not exceed the running maximum leave it alone. *)
Lemma scan_noop state c0 t0 :
  Forall (fun kv => PyStr.le (entry_ts kv.2) t0) state ->
  scan state (c0, t0) = (c0, t0).
Proof.
  induction 1 as [|kv state Hkv _ IH]; [reflexivity|].
  rewrite scan_cons. unfold scan_step. cbn [fst snd].
  fold (entry_ts kv.2).
  unfold PyStr.le in Hkv. rewrite PyStrFacts.leb_negb_ltb in Hkv.
  apply negb_true_iff in Hkv. rewrite Hkv. exact IH.
Qed.

(** Below a bound, the running maximum stays below it. *)
Lemma scan_below state c0 t0 t :
  PyStr.lt t0 t ->
  Forall (fun kv => PyStr.lt (entry_ts kv.2) t) state ->
  PyStr.lt (scan state (c0, t0)).2 t.
Proof.
  intros Ht0 Hall. revert c0 t0 Ht0.
  induction Hall as [|kv state Hkv _ IH]; intros c0 t0 Ht0; [exact Ht0|].
  rewrite scan_cons. unfold scan_step. cbn [fst snd].
  fold (entry_ts kv.2).
  destruct (PyStr.ltb t0 (entry_ts kv.2)); apply IH; assumption.
Qed.

(** The scan ends on its start value or on the first link that carries the
    largest identifier. *)
Lemma scan_inv state c0 t0 :
  (scan state (c0, t0) = (c0, t0)
   /\ Forall (fun kv => PyStr.le (entry_ts kv.2) t0) state)
  \/ (exists pre cid e post,
        state = pre ++ (cid, e) :: post
        /\ scan state (c0, t0) = (Some cid, entry_ts e)
        /\ PyStr.lt t0 (entry_ts e)
        /\ Forall (fun kv => PyStr.lt (entry_ts kv.2) (entry_ts e)) pre
        /\ Forall (fun kv => PyStr.le (entry_ts kv.2) (entry_ts e)) post).
Proof.
  revert c0 t0. induction state as [|[k e] state IH]; intros c0 t0.
  - left. split; [reflexivity|constructor].
  - rewrite scan_cons. unfold scan_step. cbn [fst snd].
    fold (entry_ts e).
    destruct (PyStr.ltb t0 (entry_ts e)) eqn:E.
    + destruct (IH (Some k) (entry_ts e))
        as [[Hs Hall]|(pre & cid & e' & post & -> & Hs & Hlt & Hpre & Hpost)].
      * right. exists [], k, e, state. repeat split; auto.
      * right. exists ((k, e) :: pre), cid, e', post.
        repeat split; auto.
        unfold PyStr.lt in *. eapply PyStrFacts.ltb_trans; eassumption.
    + assert (Hle : PyStr.le (entry_ts e) t0).
      { unfold PyStr.le. rewrite PyStrFacts.leb_negb_ltb, E. reflexivity. }
      destruct (IH c0 t0)
        as [[Hs Hall]|(pre & cid & e' & post & -> & Hs & Hlt & Hpre & Hpost)].
      * left. split; [exact Hs|]. constructor; auto.
      * right. exists ((k, e) :: pre), cid, e', post.
        repeat split; auto.
        constructor; auto. cbn [snd].
        unfold PyStr.lt, PyStr.le in *.
        eapply PyStrFacts.leb_ltb_trans; eassumption.
Qed.

(** C9 (amended). [get_most_recent_thread] returns [(cid, ts)] exactly when
    [ts] is the largest thread identifier of the store under string order
    (a link without one counts as ["0"]), [ts] is strictly above ["0"],
    [cid] is the first conversation of the scan that carries [ts] (every
    earlier link is strictly smaller, so among equal maximal identifiers
    the one met first wins), and [cid] is not the empty string. *)
Theorem most_recent_thread_first_max (file : document) (cid ts : pystr) :
  get_most_recent_thread file = Some (cid, ts)
  <-> exists pre e post,
        _load_state file = pre ++ (cid, e) :: post
        /\ entry_ts e = ts
        /\ PyStr.lt (py "0") ts
        /\ cid <> []
        /\ Forall (fun kv => PyStr.lt (entry_ts kv.2) ts) pre
        /\ Forall (fun kv => PyStr.le (entry_ts kv.2) ts) post.
Proof.
  unfold get_most_recent_thread. split.
  - destruct (_load_state file) as [|kv0 st0] eqn:Est; [discriminate|].
    destruct (scan_inv (kv0 :: st0) None (py "0"))
      as [[Hs _]|(pre & c & e & post & Hst & Hs & Hlt & Hpre & Hpost)];
      rewrite Hs; [discriminate|].
    destruct c as [|x c]; [discriminate|]. cbn [PyStr.truthy].
    intros [= <- <-]. exists pre, e, post. repeat split; auto.
  - intros (pre & e & post & Hst & <- & Hlt & Hcid & Hpre & Hpost).
    rewrite Hst.
    assert (Hs : scan (pre ++ (cid, e) :: post) (None, py "0")
                 = (Some cid, entry_ts e)).
    { rewrite scan_app, scan_cons.
      pose proof (scan_below pre None (py "0") _ Hlt Hpre) as Hb.
      destruct (scan pre (None, py "0")) as [c1 t1]. cbn [snd] in Hb.
      unfold scan_step. cbn [fst snd]. fold (entry_ts e).
      unfold PyStr.lt in Hb. rewrite Hb. apply scan_noop, Hpost. }
    rewrite Hs.
    destruct pre; cbn [app]; destruct cid; try contradiction; reflexivity.
Qed.

(** C9, as first stated, fails: of two links with the same largest thread
    identifier the scan keeps the one it meets first, not the later one;
    and a store whose only link has no thread identifier yields nothing. *)
Lemma most_recent_thread_tie_first_wins :
  let tie := Some [(py "conv-a", Current (Entry (Some (py "1700000005.000100")) None));
                   (py "conv-b", Current (Entry (Some (py "1700000005.000100")) None))] in
  get_most_recent_thread tie = Some (py "conv-a", py "1700000005.000100")
  /\ get_most_recent_thread tie <> Some (py "conv-b", py "1700000005.000100")
  /\ get_most_recent_thread
       (Some [(py "conv-c", Current (Entry None (Some (py "F1"))))]) = None.
Proof. vm_compute. repeat split; discriminate. Qed.

(** *** The stable sort of [_save_state] *)

Section Sorted.
Context {A : Type} (key : A -> pystr).

Lemma insert_by_perm x l : insert_by key x l ≡ₚ x :: l.
Proof.
  induction l as [|y l IH]; simpl; [reflexivity|].
  destruct (PyStr.leb (key x) (key y)); [reflexivity|].
  rewrite IH. apply Permutation_swap.
Qed.

Lemma sorted_perm l : sorted key l ≡ₚ l.
Proof.
  induction l as [|x l IH]; simpl; [reflexivity|].
  rewrite insert_by_perm, IH. reflexivity.
Qed.

Lemma insert_by_sorted x l :
  StronglySorted (key_le key) l -> StronglySorted (key_le key) (insert_by key x l).
Proof.
  induction l as [|y l IH]; simpl; intros Hs.
  - repeat constructor.
  - apply StronglySorted_cons in Hs as [Hy Hs].
    destruct (PyStr.leb (key x) (key y)) eqn:E.
    + constructor; [constructor; assumption|].
      constructor; [exact E|].
      eapply Forall_impl; [exact Hy|].
      intros z Hz. unfold key_le, PyStr.le in *.
      eapply PyStrFacts.leb_trans; eassumption.
    + constructor; [apply IH, Hs|].
      rewrite insert_by_perm. constructor; [|exact Hy].
      unfold key_le, PyStr.le.
      destruct (PyStrFacts.leb_total (key x) (key y)); congruence.
Qed.

Lemma sorted_sorted l : StronglySorted (key_le key) (sorted key l).
Proof.
  induction l as [|x l IH]; simpl; [constructor|].
  apply insert_by_sorted, IH.
Qed.

(** Sorting a list that is in order already changes nothing. *)
Lemma sorted_id l : StronglySorted (key_le key) l -> sorted key l = l.
Proof.
  induction l as [|x l IH]; simpl; intros Hs; [reflexivity|].
  apply StronglySorted_cons in Hs as [Hx Hs].
  rewrite IH by exact Hs.
  destruct l as [|y l]; [reflexivity|]. simpl.
  apply Forall_cons in Hx as [Hxy _].
  unfold key_le, PyStr.le in Hxy. rewrite Hxy. reflexivity.
Qed.

End Sorted.

Lemma filter_not_elem_of_app (l1 l2 : list pystr) :
  NoDup (l1 ++ l2) -> filter (fun k => k ∉ l1) (l1 ++ l2) = l2.
Proof.
  intros Hnd. apply NoDup_app in Hnd as (_ & Hdisj & _).
  rewrite filter_app.
  assert (H1 : forall l : list pystr, (forall k, k ∈ l -> k ∈ l1) ->
                         filter (fun k => k ∉ l1) l = []).
  { induction l as [|k l IH]; intros Hl; [reflexivity|].
    rewrite filter_cons_False by (intros Hn; apply Hn, Hl; left).
    apply IH. intros k' Hk'. apply Hl. right. exact Hk'. }
  rewrite H1 by auto. simpl.
  assert (H2 : forall l : list pystr, (forall k, k ∈ l -> k ∉ l1) ->
                         filter (fun k => k ∉ l1) l = l).
  { induction l as [|k l IH]; intros Hl; [reflexivity|].
    rewrite filter_cons_True by (apply Hl; left).
    f_equal. apply IH. intros k' Hk'. apply Hl. right. exact Hk'. }
  apply H2. intros k Hk2 Hk1. exact (Hdisj _ Hk1 Hk2).
Qed.

Lemma sort_key_elem_of state k e :
  NoDup (keys state) -> (k, e) ∈ state -> sort_key state k = key_ts e.
Proof.
  intros Hnd Hin. unfold sort_key.
  rewrite (get_elem_of _ _ _ Hnd Hin). reflexivity.
Qed.

Lemma prune_filter state :
  NoDup (keys state) -> 100 < length state ->
  prune state = filter (fun kv => kv.1 ∉ evicted state) state.
Proof.
  intros Hnd Hlen. unfold prune.
  apply Nat.ltb_lt in Hlen. rewrite Hlen.
  cbv zeta. apply dels_filter, Hnd.
Qed.

Lemma prune_small state : length state <= 100 -> prune state = state.
Proof.
  intros Hlen. unfold prune.
  destruct (100 <? length state) eqn:E; [|reflexivity].
  apply Nat.ltb_lt in E. lia.
Qed.

Lemma prune_keys state :
  NoDup (keys state) -> 100 < length state ->
  keys (prune state)
  ≡ₚ drop (length state - 100) (sorted (sort_key state) (keys state)).
Proof.
  intros Hnd Hlen. rewrite prune_filter by assumption.
  pose proof (keys_filter (fun k => k ∉ evicted state) state) as Hk.
  simpl in Hk. rewrite Hk. clear Hk.
  set (ks := sorted (sort_key state) (keys state)).
  assert (Hp : ks ≡ₚ keys state) by apply sorted_perm.
  assert (Hl : length ks = length state).
  { rewrite Hp. unfold keys. apply length_fmap. }
  rewrite <- Hp. unfold evicted. fold ks. rewrite Hl.
  pose proof (filter_not_elem_of_app (take (length state - 100) ks)
                (drop (length state - 100) ks)) as Hf.
  rewrite take_drop in Hf. rewrite Hf; [reflexivity|].
  rewrite Hp. exact Hnd.
Qed.

Lemma prune_NoDup state : NoDup (keys state) -> NoDup (keys (prune state)).
Proof.
  intros Hnd. destruct (decide (100 < length state)) as [Hlen|Hlen].
  - rewrite prune_filter by assumption.
    exact (keys_filter_NoDup (fun k => k ∉ evicted state) state Hnd).
  - rewrite prune_small by lia. exact Hnd.
Qed.

(** What [_save_state] writes is read back unchanged. *)
Lemma load_save_state state :
  NoDup (keys state) -> _load_state (_save_state state) = prune state.
Proof.
  intros Hnd. unfold _save_state.
  pose proof (prune_NoDup state Hnd) as Hp.
  rewrite load_state_fmap.
  - rewrite <- list_fmap_compose. rewrite <- (list_fmap_id (prune state)) at 2.
    apply list_fmap_ext. intros i [k e] _. reflexivity.
  - unfold keys in *. rewrite <- list_fmap_compose. exact Hp.
Qed.

(** *** Storing links one after the other *)

Lemma StronglySorted_fmap_elem_of {A B C} (R1 : relation B) (R2 : relation C)
    (f : A -> B) (g : A -> C) (l : list A) :
  (forall x y, x ∈ l -> y ∈ l -> R1 (f x) (f y) -> R2 (g x) (g y)) ->
  StronglySorted R1 (f <$> l) -> StronglySorted R2 (g <$> l).
Proof.
  induction l as [|a l IH]; intros HR Hs; [constructor|].
  rewrite fmap_cons in Hs. apply StronglySorted_cons in Hs as [Ha Hs].
  rewrite fmap_cons. constructor.
  - apply IH; [|exact Hs]. intros x y Hx Hy. apply HR; right; assumption.
  - apply Forall_fmap, Forall_forall. intros y Hy. simpl.
    apply HR; [left|right; exact Hy|].
    rewrite Forall_forall in Ha. apply Ha, list_elem_of_fmap_2, Hy.
Qed.

Lemma keys_link (L : list (pystr * pystr)) : keys (link <$> L) = L.*1.
Proof.
  unfold keys. rewrite <- list_fmap_compose.
  apply list_fmap_ext. intros i [c t] _. reflexivity.
Qed.

(** Links stored with increasing thread identifiers are in sort order. *)
Lemma keys_link_sorted (L : list (pystr * pystr)) :
  NoDup L.*1 -> StronglySorted PyStr.lt L.*2 ->
  StronglySorted (key_le (sort_key (link <$> L))) (keys (link <$> L)).
Proof.
  intros Hnd Hs. rewrite keys_link.
  apply (StronglySorted_fmap_elem_of PyStr.lt _ snd fst L); [|exact Hs].
  intros [c1 t1] [c2 t2] H1 H2 Hlt. simpl in *.
  unfold key_le.
  rewrite (sort_key_elem_of (link <$> L) c1 (Entry (Some t1) None)).
  - rewrite (sort_key_elem_of (link <$> L) c2 (Entry (Some t2) None)).
    + simpl. apply PyStrFacts.ltb_leb, Hlt.
    + rewrite keys_link. exact Hnd.
    + apply (list_elem_of_fmap_2 link _ (c2, t2)), H2.
  - rewrite keys_link. exact Hnd.
  - apply (list_elem_of_fmap_2 link _ (c1, t1)), H1.
Qed.

Lemma prune_link_sorted (L : list (pystr * pystr)) :
  NoDup L.*1 -> StronglySorted PyStr.lt L.*2 -> length L <= 101 ->
  prune (link <$> L) = link <$> drop (length L - 100) L.
Proof.
  intros Hnd Hs Hlen.
  destruct (decide (length L <= 100)) as [Hle|Hgt].
  - rewrite prune_small by (rewrite length_fmap; exact Hle).
    replace (length L - 100) with 0 by lia. reflexivity.
  - assert (Hl : length L = 101) by lia.
    unfold prune. rewrite length_fmap, Hl. cbn [Nat.ltb Nat.leb].
    rewrite (sorted_id _ _ (keys_link_sorted L Hnd Hs)).
    unfold keys. rewrite !length_fmap, Hl.
    destruct L as [|[c t] L]; [discriminate|].
    change (101 - 100) with 1. rewrite !fmap_cons. cbn [take fold_left].
    cbn [link fst snd del]. rewrite (proj2 (eqb_true c c) eq_refl).
    reflexivity.
Qed.

Lemma save_thread_ts_append (file : document) (L : list (pystr * pystr))
    (c t : pystr) :
  _load_state file = link <$> L ->
  NoDup (L ++ [(c, t)]).*1 ->
  StronglySorted PyStr.lt (L ++ [(c, t)]).*2 ->
  length L <= 100 ->
  _load_state (save_thread_ts c t file)
  = link <$> drop (length L + 1 - 100) (L ++ [(c, t)]).
Proof.
  intros Hload Hnd Hs Hlen. unfold save_thread_ts. rewrite Hload.
  assert (Hc : c ∉ keys (link <$> L)).
  { rewrite keys_link. rewrite fmap_app in Hnd.
    apply NoDup_app in Hnd as (_ & Hdisj & _).
    intros Hin. apply (Hdisj _ Hin). left. }
  unfold mem. rewrite (get_fresh _ _ Hc).
  rewrite (set_fresh _ _ _ Hc), (get_app_fresh _ _ _ Hc).
  rewrite (set_last _ _ _ _ Hc). cbn [file_id].
  change ((link <$> L) ++ [(c, Entry (Some t) None)])
    with ((link <$> L) ++ (link <$> [(c, t)])).
  rewrite <- fmap_app.
  rewrite load_save_state by (rewrite keys_link; exact Hnd).
  rewrite prune_link_sorted; auto.
  - rewrite length_app. simpl. reflexivity.
  - rewrite length_app. simpl. lia.
Qed.

Lemma store_links_snoc links x file :
  store_links (links ++ [x]) file
  = save_thread_ts x.1 x.2 (store_links links file).
Proof. unfold store_links. rewrite fold_left_app. reflexivity. Qed.

(** After any number of links with distinct conversations and increasing
    thread identifiers, the store holds the last hundred of them. *)
Lemma store_links_spec (links : list (pystr * pystr)) (file0 : document) :
  _load_state file0 = [] ->
  NoDup links.*1 ->
  StronglySorted PyStr.lt links.*2 ->
  _load_state (store_links links file0)
  = link <$> drop (length links - 100) links.
Proof.
  intros H0. induction links as [|[c t] l IH] using rev_ind; intros Hnd Hs.
  - exact H0.
  - rewrite store_links_snoc. cbn [fst snd].
    rewrite fmap_app in Hnd, Hs.
    pose proof Hnd as Hnd0. pose proof Hs as Hs0.
    apply NoDup_app in Hnd0 as (Hnd1 & _ & _).
    apply StronglySorted_app_1_l in Hs0.
    specialize (IH Hnd1 Hs0).
    set (n := length l) in *.
    assert (Hsplit : l ++ [(c, t)]
                     = take (n - 100) l ++ (drop (n - 100) l ++ [(c, t)])).
    { rewrite app_assoc, take_drop. reflexivity. }
    rewrite (save_thread_ts_append _ (drop (n - 100) l) c t IH).
    + rewrite length_drop, length_app. simpl. fold n.
      destruct (decide (n <= 100)) as [Hle|Hgt].
      * assert (E0 : n - 100 = 0) by (clear -Hle; lia).
        rewrite E0, Nat.sub_0_r. reflexivity.
      * assert (E1 : n - (n - 100) + 1 - 100 = 1) by (clear -Hgt; lia).
        assert (E2 : n + 1 - 100 = n - 100 + 1) by (clear -Hgt; lia).
        rewrite E1, E2.
        rewrite <- drop_drop. f_equal.
        rewrite (drop_app_le l [(c, t)] (n - 100)) by (fold n; clear; lia).
        reflexivity.
    + rewrite <- fmap_app, Hsplit, fmap_app in Hnd.
      apply NoDup_app in Hnd as (_ & _ & Hnd). exact Hnd.
    + rewrite <- fmap_app, Hsplit, fmap_app in Hs.
      apply StronglySorted_app_1_r in Hs. exact Hs.
    + rewrite length_drop. fold n. clear. lia.
Qed.

Lemma prune_length state :
  NoDup (keys state) -> 100 < length state -> length (prune state) = 100.
Proof.
  intros Hnd Hlen.
  pose proof (prune_keys state Hnd Hlen) as Hp.
  apply Permutation_length in Hp.
  unfold keys in Hp at 1. rewrite length_fmap in Hp. rewrite Hp.
  rewrite length_drop.
  assert (Hl : length (sorted (sort_key state) (keys state)) = length state).
  { rewrite (Permutation_length (sorted_perm _ _)).
    unfold keys. apply length_fmap. }
  rewrite Hl. clear -Hlen. lia.
Qed.

(** Whatever [_save_state] deletes is no newer than anything it keeps. *)
Lemma prune_evicts_oldest state k e k' e' :
  NoDup (keys state) -> 100 < length state ->
  (k, e) ∈ state -> (k, e) ∉ prune state -> (k', e') ∈ prune state ->
  PyStr.le (key_ts e) (key_ts e').
Proof.
  intros Hnd Hlen Hin Hout Hkept.
  rewrite prune_filter in Hout, Hkept by assumption.
  apply list_elem_of_filter in Hkept as [Hk' Hin']. simpl in Hk'.
  assert (Hk : k ∈ evicted state).
  { destruct (decide (k ∈ evicted state)) as [H|H]; [exact H|].
    exfalso. apply Hout. apply list_elem_of_filter. split; assumption. }
  set (ks := sorted (sort_key state) (keys state)) in *.
  assert (Hks : k' ∈ ks).
  { unfold ks. rewrite sorted_perm. unfold keys.
    apply (list_elem_of_fmap_2 fst _ (k', e')), Hin'. }
  unfold evicted in Hk, Hk'. fold ks in Hk, Hk'.
  rewrite <- (take_drop (length ks - 100) ks) in Hks.
  apply elem_of_app in Hks as [Hks|Hks]; [contradiction|].
  pose proof (sorted_sorted (sort_key state) (keys state)) as Hs.
  fold ks in Hs. rewrite <- (take_drop (length ks - 100) ks) in Hs.
  pose proof (StronglySorted_app_1_elem_of _ _ _ _ _ Hs Hk Hks) as Hle.
  unfold key_le in Hle.
  rewrite (sort_key_elem_of state k e Hnd Hin) in Hle.
  rewrite (sort_key_elem_of state k' e' Hnd Hin') in Hle.
  exact Hle.
Qed.

(** C5. Storing 150 links with distinct conversations and increasing
    thread identifiers, one after the other, into an empty store leaves
    exactly 100 links: the last 100 stored, each with a larger thread
    identifier than any of the 50 dropped. And every [_save_state] of more
    than 100 links writes exactly 100 of them, unchanged and in their
    order, with the deleted ones no newer (by [thread_ts], a missing one
    counting as the empty string) than any that is kept. *)
Theorem retention_keeps_newest_hundred
    (links : list (pystr * pystr)) (file0 : document) :
  _load_state file0 = [] ->
  length links = 150 ->
  NoDup links.*1 ->
  StronglySorted PyStr.lt links.*2 ->
  (length (_load_state (store_links links file0)) = 100
   /\ _load_state (store_links links file0) = link <$> drop 50 links
   /\ forall old new,
        old ∈ take 50 links -> new ∈ drop 50 links -> PyStr.lt old.2 new.2)
  /\ (forall state : dict entry,
        NoDup (keys state) -> 100 < length state ->
        _load_state (_save_state state) = prune state
        /\ length (prune state) = 100
        /\ prune state `sublist_of` state
        /\ forall k e k' e',
             (k, e) ∈ state -> (k, e) ∉ prune state ->
             (k', e') ∈ prune state ->
             PyStr.le (key_ts e) (key_ts e')).
Proof.
  intros H0 Hlen Hnd Hs. split.
  - pose proof (store_links_spec links file0 H0 Hnd Hs) as Hspec.
    rewrite Hlen in Hspec. change (150 - 100) with 50 in Hspec.
    rewrite Hspec. repeat split.
    + rewrite length_fmap, length_drop, Hlen. reflexivity.
    + intros old new Hold Hnew.
      rewrite <- (take_drop 50 links), fmap_app in Hs.
      apply (StronglySorted_app_1_elem_of _ _ _ _ _ Hs);
        apply list_elem_of_fmap_2; assumption.
  - intros state Hnds Hbig. repeat split.
    + apply load_save_state, Hnds.
    + apply prune_length; assumption.
    + rewrite prune_filter by assumption. apply sublist_filter.
    + intros k e k' e'. apply prune_evicts_oldest; assumption.
Qed.

Lemma retention_keeps_newest_hundred_witness :
  let links := sample_links 150 in
  (length (_load_state (store_links links None)) = 100
   /\ _load_state (store_links links None) = link <$> drop 50 links
   /\ forall old new,
        old ∈ take 50 links -> new ∈ drop 50 links -> PyStr.lt old.2 new.2)
  /\ (forall state : dict entry,
        NoDup (keys state) -> 100 < length state ->
        _load_state (_save_state state) = prune state
        /\ length (prune state) = 100
        /\ prune state `sublist_of` state
        /\ forall k e k' e',
             (k, e) ∈ state -> (k, e) ∉ prune state ->
             (k', e') ∈ prune state ->
             PyStr.le (key_ts e) (key_ts e')).
Proof.
  intros links.
  apply (retention_keeps_newest_hundred links None).
  - reflexivity.
  - vm_compute. reflexivity.
  - apply (bool_decide_unpack _). vm_compute. exact I.
  - apply (bool_decide_unpack _). vm_compute. exact I.
Defined.

End StoreFacts.

(** ** Properties of the reply listener *)

Module ListenerFacts.

Import Listener.

Section Loop.
Variable osascript : nat -> pystr -> option exn.
Variables (bot_user_id : option pystr) (shortcut_key : pystr).

Implicit Types (w : world) (msg : message) (thread_ts last_seen : pystr).

(** Whatever [osascript] does, [inject_message] returns. *)
Lemma inject_message_returns message w :
  inject_message osascript message shortcut_key w
  = (Ok tt,
     World (listener_state w) (listener_file w)
           (runs w ++ [script_of message shortcut_key])
           (logs w ++ [outcome_log osascript (length (runs w)) message
                         shortcut_key])).
Proof.
  unfold inject_message, try_except, outcome_log, subprocess_run, log.
  unfold mbind, M_bind.
  destruct (osascript (length (runs w)) (script_of message shortcut_key))
    as [[| |]|]; reflexivity.
Qed.

Lemma handle_message_old thread_ts last_seen msg w :
  is_new thread_ts last_seen msg = false ->
  handle_message osascript bot_user_id shortcut_key thread_ts last_seen msg w
  = (Ok tt, w).
Proof.
  unfold is_new, handle_message. intros H.
  destruct (PyStr.leb (msg_ts msg) last_seen); [reflexivity|].
  destruct (PyStr.eqb (msg_ts msg) thread_ts); [reflexivity|discriminate].
Qed.

Lemma handle_message_filtered thread_ts last_seen msg w :
  is_new thread_ts last_seen msg = true ->
  qualifies bot_user_id thread_ts last_seen msg = false ->
  handle_message osascript bot_user_id shortcut_key thread_ts last_seen msg w
  = (Ok tt, moved thread_ts msg w).
Proof.
  unfold qualifies, bot_origin, is_new, handle_message. intros Hnew.
  rewrite Hnew. cbn [andb].
  destruct (PyStr.leb (msg_ts msg) last_seen); [discriminate|].
  destruct (PyStr.eqb (msg_ts msg) thread_ts); [discriminate|].
  destruct (opt_truthy (bot_id msg)); [reflexivity|]. cbn [orb].
  destruct (opt_truthy bot_user_id && bool_decide (user msg = bot_user_id));
    [reflexivity|]. cbn [negb andb].
  intros ->. reflexivity.
Qed.

Lemma handle_message_delivered thread_ts last_seen msg w :
  qualifies bot_user_id thread_ts last_seen msg = true ->
  handle_message osascript bot_user_id shortcut_key thread_ts last_seen msg w
  = (Ok tt, delivered osascript shortcut_key thread_ts msg w).
Proof.
  unfold qualifies, bot_origin, is_new, handle_message. intros H.
  destruct (PyStr.leb (msg_ts msg) last_seen); [discriminate|].
  destruct (PyStr.eqb (msg_ts msg) thread_ts); [discriminate|].
  destruct (opt_truthy (bot_id msg)); [discriminate|]. cbn [orb] in *.
  destruct (opt_truthy bot_user_id && bool_decide (user msg = bot_user_id));
    [discriminate|]. cbn [negb andb] in H.
  rewrite H. cbn [negb].
  unfold mbind, M_bind, log at 1.
  rewrite inject_message_returns.
  unfold set_cursor, delivered, script_for.
  cbn [logs listener_state listener_file runs].
  rewrite <- app_assoc. reflexivity.
Qed.

(** The loop body in one equation. *)
Lemma handle_message_cases thread_ts last_seen msg w :
  handle_message osascript bot_user_id shortcut_key thread_ts last_seen msg w
  = (Ok tt,
     if qualifies bot_user_id thread_ts last_seen msg
     then delivered osascript shortcut_key thread_ts msg w
     else if is_new thread_ts last_seen msg then moved thread_ts msg w
     else w).
Proof.
  destruct (qualifies bot_user_id thread_ts last_seen msg) eqn:Hq.
  - apply handle_message_delivered, Hq.
  - destruct (is_new thread_ts last_seen msg) eqn:Hn.
    + apply handle_message_filtered; assumption.
    + apply handle_message_old, Hn.
Qed.

(** *** The loop over the replies *)

Lemma for_each_app {A} (l1 l2 : list A) (body : A -> M unit) w :
  for_each (l1 ++ l2) body w
  = match for_each l1 body w with
    | (Ok _, w') => for_each l2 body w'
    | (Raise e, w') => (Raise e, w')
    end.
Proof.
  revert w. induction l1 as [|x l1 IH]; intros w; [reflexivity|].
  cbn [app for_each]. unfold mbind, M_bind.
  destruct (body x w) as [[[]|e] w']; [apply IH|reflexivity].
Qed.

Lemma handle_replies_cons thread_ts last_seen msg replies w :
  handle_replies osascript bot_user_id shortcut_key thread_ts last_seen
    (msg :: replies) w
  = handle_replies osascript bot_user_id shortcut_key thread_ts last_seen
      replies
      (handle_message osascript bot_user_id shortcut_key thread_ts last_seen
         msg w).2.
Proof.
  unfold handle_replies. cbn [for_each]. unfold mbind, M_bind.
  rewrite handle_message_cases. reflexivity.
Qed.

Lemma handle_replies_snoc thread_ts last_seen replies msg w :
  (handle_replies osascript bot_user_id shortcut_key thread_ts last_seen
     (replies ++ [msg]) w).2
  = (handle_message osascript bot_user_id shortcut_key thread_ts last_seen
       msg
       (handle_replies osascript bot_user_id shortcut_key thread_ts last_seen
          replies w).2).2.
Proof.
  revert w. induction replies as [|m replies IH]; intros w.
  - cbn [app]. rewrite handle_replies_cons. reflexivity.
  - cbn [app]. rewrite !handle_replies_cons. apply IH.
Qed.

(** The loop never raises; it runs [osascript] once for each message that
    qualifies, in the order of the list, and leaves the file alone. *)
Lemma handle_replies_returns thread_ts last_seen replies w :
  exists w',
    handle_replies osascript bot_user_id shortcut_key thread_ts last_seen
      replies w = (Ok tt, w')
    /\ runs w' = runs w ++ (script_for shortcut_key
                             <$> injected bot_user_id thread_ts last_seen
                                   replies)
    /\ listener_file w' = listener_file w.
Proof.
  revert w. induction replies as [|msg replies IH]; intros w.
  - exists w. repeat split. cbn. rewrite app_nil_r. reflexivity.
  - rewrite handle_replies_cons, handle_message_cases. cbn [snd].
    unfold injected.
    destruct (qualifies bot_user_id thread_ts last_seen msg) eqn:Hq.
    + destruct (IH (delivered osascript shortcut_key thread_ts msg w))
        as (w' & Hrun & Hruns & Hfile).
      exists w'. split; [exact Hrun|]. split; [|exact Hfile].
      rewrite Hruns. rewrite filter_cons_True by exact Hq.
      rewrite fmap_cons. cbn [delivered runs].
      rewrite <- app_assoc. reflexivity.
    + rewrite filter_cons_False by (rewrite Hq; discriminate).
      destruct (is_new thread_ts last_seen msg);
        [destruct (IH (moved thread_ts msg w)) as (w' & Hrun & Hruns & Hfile)
        |destruct (IH w) as (w' & Hrun & Hruns & Hfile)];
        exists w'; repeat split; assumption.
Qed.

(** *** The cursor *)

Local Abbreviation after :=
  (Listener.after osascript bot_user_id shortcut_key).
Local Abbreviation after_ticks :=
  (Listener.after_ticks osascript bot_user_id shortcut_key).

Lemma cursor_le_refl st : cursor_le st st.
Proof. intros t. apply PyStrFacts.leb_refl. Qed.

Lemma cursor_le_trans st1 st2 st3 :
  cursor_le st1 st2 -> cursor_le st2 st3 -> cursor_le st1 st3.
Proof.
  intros H12 H23 t. eapply PyStrFacts.leb_trans; [apply H12|apply H23].
Qed.

Lemma cursor_insert_eq (st : gmap pystr pystr) thread_ts v :
  cursor (<[thread_ts := v]> st) thread_ts = v.
Proof. unfold cursor. rewrite lookup_insert_eq. reflexivity. Qed.

Lemma cursor_insert_ne (st : gmap pystr pystr) thread_ts t v :
  thread_ts <> t -> cursor (<[thread_ts := v]> st) t = cursor st t.
Proof. intros Hne. unfold cursor. rewrite lookup_insert_ne; auto. Qed.

Lemma cursor_le_insert (st : gmap pystr pystr) thread_ts v :
  PyStr.le (cursor st thread_ts) v -> cursor_le st (<[thread_ts := v]> st).
Proof.
  intros Hle t. destruct (decide (thread_ts = t)) as [<-|Hne].
  - rewrite cursor_insert_eq. exact Hle.
  - rewrite cursor_insert_ne by exact Hne. apply PyStrFacts.leb_refl.
Qed.

Lemma listener_state_step thread_ts last_seen msg w :
  listener_state
    (handle_message osascript bot_user_id shortcut_key thread_ts last_seen
       msg w).2
  = if is_new thread_ts last_seen msg
    then <[thread_ts := msg_ts msg]> (listener_state w)
    else listener_state w.
Proof.
  rewrite handle_message_cases. cbn [snd]. unfold qualifies.
  destruct (is_new thread_ts last_seen msg); cbn [andb]; [|reflexivity].
  destruct (negb (bot_origin bot_user_id msg)
            && PyStr.truthy (PyStr.strip (default [] (text msg))));
    reflexivity.
Qed.

Lemma ahead_step thread_ts last_seen msg replies w :
  ahead thread_ts last_seen w (msg :: replies) ->
  cursor_le (listener_state w)
    (listener_state
       (handle_message osascript bot_user_id shortcut_key thread_ts
          last_seen msg w).2)
  /\ ahead thread_ts last_seen
       (handle_message osascript bot_user_id shortcut_key thread_ts
          last_seen msg w).2 replies.
Proof.
  intros [Hasc Hall]. unfold ascending in Hasc. rewrite fmap_cons in Hasc.
  apply StronglySorted_cons in Hasc as [Hmsg Hasc].
  apply Forall_cons in Hall as [Hhd Hall].
  unfold ahead. rewrite listener_state_step.
  destruct (is_new thread_ts last_seen msg) eqn:Hnew.
  - split; [apply cursor_le_insert, Hhd; reflexivity|].
    split; [exact Hasc|].
    rewrite cursor_insert_eq. apply Forall_forall. intros m Hm _.
    rewrite Forall_forall in Hmsg. apply Hmsg.
    apply list_elem_of_fmap_2, Hm.
  - split; [apply cursor_le_refl|]. split; assumption.
Qed.

Lemma ahead_after thread_ts last_seen pre rest w :
  ahead thread_ts last_seen w (pre ++ rest) ->
  cursor_le (listener_state w)
            (listener_state (after thread_ts last_seen pre w))
  /\ ahead thread_ts last_seen (after thread_ts last_seen pre w) rest.
Proof.
  revert w. induction pre as [|msg pre IH]; intros w Hah.
  - split; [apply cursor_le_refl|exact Hah].
  - cbn [app] in Hah. apply ahead_step in Hah as [Hle Hah].
    unfold Listener.after. rewrite handle_replies_cons.
    destruct (IH _ Hah) as [Hle' Hah'].
    split; [|exact Hah'].
    eapply cursor_le_trans; [exact Hle|exact Hle'].
Qed.

(** At the start of a tick the list is ahead of the cursor. *)
Lemma ahead_start thread_ts replies w :
  ascending replies ->
  ahead thread_ts (cursor (listener_state w) thread_ts) w replies.
Proof.
  intros Hasc. split; [exact Hasc|].
  apply Forall_forall. intros msg _ Hnew.
  unfold is_new in Hnew. apply andb_true_iff in Hnew as [Hlt _].
  rewrite PyStrFacts.leb_negb_ltb, negb_involutive in Hlt.
  apply PyStrFacts.ltb_leb, Hlt.
Qed.

(** Every step of the loop of a tick moves no cursor back. *)
Lemma replies_step_monotone thread_ts pre msg rest w :
  let last_seen := cursor (listener_state w) thread_ts in
  ascending (pre ++ msg :: rest) ->
  cursor_le (listener_state (after thread_ts last_seen pre w))
            (listener_state (after thread_ts last_seen (pre ++ [msg]) w)).
Proof.
  intros last_seen Hasc.
  pose proof (ahead_start thread_ts _ w Hasc) as Hah. fold last_seen in Hah.
  apply ahead_after in Hah as [_ Hah].
  apply ahead_step in Hah as [Hle _].
  unfold Listener.after at 2. rewrite handle_replies_snoc. exact Hle.
Qed.

Lemma replies_monotone thread_ts replies w :
  ascending replies ->
  cursor_le (listener_state w)
    (listener_state
       (after thread_ts (cursor (listener_state w) thread_ts) replies w)).
Proof.
  intros Hasc. pose proof (ahead_start thread_ts _ w Hasc) as Hah.
  rewrite <- (app_nil_r replies) in Hah.
  apply ahead_after in Hah as [Hle _]. exact Hle.
Qed.

(** *** Ticks *)

Lemma tick_cases (p : poll) w :
  tick osascript bot_user_id shortcut_key p w = (Ok tt, w)
  \/ exists cid thread_ts,
       Store.get_most_recent_thread (threads_file p) = Some (cid, thread_ts)
       /\ let last_seen := cursor (listener_state w) thread_ts in
          let w' := after thread_ts last_seen
                      (get_thread_replies p thread_ts last_seen) w in
          tick osascript bot_user_id shortcut_key p w
          = (Ok tt, World (listener_state w') (Some (listener_state w'))
                          (runs w') (logs w')).
Proof.
  unfold tick.
  destruct (Store.get_most_recent_thread (threads_file p))
    as [[cid thread_ts]|]; [|left; reflexivity].
  destruct (PyStr.truthy thread_ts); cbn [negb]; [|left; reflexivity].
  right. exists cid, thread_ts. split; [reflexivity|]. cbv zeta.
  unfold mbind, M_bind, Listener.after.
  destruct (handle_replies_returns thread_ts
              (cursor (listener_state w) thread_ts)
              (get_thread_replies p thread_ts
                 (cursor (listener_state w) thread_ts)) w)
    as (w' & Hrun & _). rewrite Hrun. reflexivity.
Qed.

(** A tick never raises. *)
Lemma tick_returns (p : poll) w :
  (tick osascript bot_user_id shortcut_key p w).1 = Ok tt.
Proof.
  destruct (tick_cases p w) as [H|(cid & thread_ts & _ & H)];
    rewrite H; reflexivity.
Qed.

Lemma run_ticks_cons p polls w :
  run_ticks osascript bot_user_id shortcut_key (p :: polls) w
  = run_ticks osascript bot_user_id shortcut_key polls
      (tick osascript bot_user_id shortcut_key p w).2.
Proof.
  unfold run_ticks. cbn [for_each]. unfold mbind, M_bind.
  pose proof (tick_returns p w) as H.
  destruct (tick osascript bot_user_id shortcut_key p w) as [[[]|e] w'];
    [reflexivity|discriminate].
Qed.

(** The loop of [run_listener] is never left through an exception. *)
Lemma run_ticks_returns polls w :
  (run_ticks osascript bot_user_id shortcut_key polls w).1 = Ok tt.
Proof.
  revert w. induction polls as [|p polls IH]; intros w; [reflexivity|].
  rewrite run_ticks_cons. apply IH.
Qed.

Lemma after_ticks_snoc polls p w :
  after_ticks (polls ++ [p]) w
  = (tick osascript bot_user_id shortcut_key p (after_ticks polls w)).2.
Proof.
  unfold Listener.after_ticks.
  revert w. induction polls as [|q polls IH]; intros w.
  - cbn [app]. rewrite run_ticks_cons. reflexivity.
  - cbn [app]. rewrite !run_ticks_cons. apply IH.
Qed.

Lemma tick_monotone (p : poll) w :
  (forall thread_ts oldest, ascending (get_thread_replies p thread_ts oldest)) ->
  cursor_le (listener_state w)
    (listener_state (tick osascript bot_user_id shortcut_key p w).2).
Proof.
  intros Hasc.
  destruct (tick_cases p w) as [H|(cid & thread_ts & _ & H)]; rewrite H.
  - apply cursor_le_refl.
  - cbn [snd listener_state]. apply replies_monotone, Hasc.
Qed.

(** *** The properties of the design document *)

Lemma bot_origin_not_injected thread_ts last_seen msg replies :
  bot_origin bot_user_id msg = true ->
  msg ∉ injected bot_user_id thread_ts last_seen replies.
Proof.
  intros Hbot Hin. unfold injected in Hin.
  apply list_elem_of_filter in Hin as [Hq _].
  unfold qualifies in Hq. rewrite Hbot in Hq.
  rewrite andb_false_r in Hq. discriminate.
Qed.

(** C1 (amended). A message that carries a bot identifier, or whose author
    is the identity resolved at startup, never reaches the injector,
    whatever its text: the loop body runs no script for it and it is not
    among the injected messages of any tick. When the message is newer than
    the cursor of the start of the tick and is not the thread root, the
    cursor of the thread is set to its identifier; otherwise the loop body
    changes nothing. *)
Theorem bot_origin_never_injected thread_ts last_seen msg w :
  bot_origin bot_user_id msg = true ->
  let r := handle_message osascript bot_user_id shortcut_key thread_ts
             last_seen msg w in
  r.1 = Ok tt
  /\ runs r.2 = runs w
  /\ (forall replies,
        msg ∉ injected bot_user_id thread_ts last_seen replies)
  /\ (is_new thread_ts last_seen msg = true ->
      listener_state r.2 !! thread_ts = Some (msg_ts msg))
  /\ (is_new thread_ts last_seen msg = false -> r.2 = w).
Proof.
  intros Hbot r. unfold r. rewrite handle_message_cases.
  assert (Hq : qualifies bot_user_id thread_ts last_seen msg = false).
  { unfold qualifies. rewrite Hbot, andb_false_r. reflexivity. }
  rewrite Hq. cbn [fst snd]. split; [reflexivity|].
  destruct (is_new thread_ts last_seen msg); cbn [moved runs listener_state].
  - split; [reflexivity|]. split.
    + intros replies. apply bot_origin_not_injected, Hbot.
    + split; [intros _; apply lookup_insert_eq|discriminate].
  - split; [reflexivity|]. split.
    + intros replies. apply bot_origin_not_injected, Hbot.
    + split; [discriminate|reflexivity].
Qed.

(** C2. In every tick, for every thread, the scripts run are those of the
    injected messages, and none of these is the thread root; the loop body
    leaves the world as it is on a message whose identifier is the root
    identifier, whatever its text; and a thread without a stored cursor is
    read at its root identifier. *)
Theorem root_never_injected thread_ts last_seen replies w :
  (exists w',
     handle_replies osascript bot_user_id shortcut_key thread_ts last_seen
       replies w = (Ok tt, w')
     /\ runs w' = runs w ++ (script_for shortcut_key
                              <$> injected bot_user_id thread_ts last_seen
                                    replies)
     /\ Forall (fun msg => msg_ts msg <> thread_ts)
               (injected bot_user_id thread_ts last_seen replies))
  /\ (forall msg,
        msg_ts msg = thread_ts ->
        handle_message osascript bot_user_id shortcut_key thread_ts
          last_seen msg w = (Ok tt, w))
  /\ (listener_state w !! thread_ts = None ->
      cursor (listener_state w) thread_ts = thread_ts).
Proof.
  split; [|split].
  - destruct (handle_replies_returns thread_ts last_seen replies w)
      as (w' & Hrun & Hruns & _).
    exists w'. split; [exact Hrun|]. split; [exact Hruns|].
    apply Forall_forall. intros msg Hin Hroot.
    apply list_elem_of_filter in Hin as [Hq _].
    unfold qualifies, is_new in Hq. rewrite Hroot in Hq.
    rewrite (proj2 (PyStrFacts.eqb_eq thread_ts thread_ts) eq_refl) in Hq.
    rewrite andb_false_r in Hq. discriminate.
  - intros msg Hroot. apply handle_message_old.
    unfold is_new. rewrite Hroot.
    rewrite (proj2 (PyStrFacts.eqb_eq thread_ts thread_ts) eq_refl).
    apply andb_false_r.
  - intros Hnone. unfold cursor. rewrite Hnone. reflexivity.
Qed.

Lemma StronglySorted_fmap_filter {A B} (R : relation B) (f : A -> B)
    (P : A -> Prop) `{!forall x, Decision (P x)} (l : list A) :
  StronglySorted R (f <$> l) -> StronglySorted R (f <$> filter P l).
Proof.
  induction l as [|x l IH]; intros Hs; [constructor|].
  rewrite fmap_cons in Hs. apply StronglySorted_cons in Hs as [Hx Hs].
  destruct (decide (P x)) as [Hp|Hp].
  - rewrite filter_cons_True by exact Hp. rewrite fmap_cons.
    constructor; [apply IH, Hs|].
    apply Forall_forall. intros y Hy. rewrite Forall_forall in Hx.
    apply Hx. apply list_elem_of_fmap in Hy as (a & -> & Ha).
    apply list_elem_of_filter in Ha as [_ Ha].
    apply list_elem_of_fmap_2, Ha.
  - rewrite filter_cons_False by exact Hp. apply IH, Hs.
Qed.

(** C3. When the identifiers of the replies of a tick increase strictly,
    the loop runs the injector once for each injected message, in the order
    of the list, and the injected messages are a subsequence of the replies
    whose identifiers increase strictly. *)
Theorem injections_ascending thread_ts last_seen replies w :
  StronglySorted PyStr.lt (msg_ts <$> replies) ->
  exists w',
    handle_replies osascript bot_user_id shortcut_key thread_ts last_seen
      replies w = (Ok tt, w')
    /\ runs w' = runs w ++ (script_for shortcut_key
                             <$> injected bot_user_id thread_ts last_seen
                                   replies)
    /\ injected bot_user_id thread_ts last_seen replies `sublist_of` replies
    /\ StronglySorted PyStr.lt
         (msg_ts <$> injected bot_user_id thread_ts last_seen replies).
Proof.
  intros Hs.
  destruct (handle_replies_returns thread_ts last_seen replies w)
    as (w' & Hrun & Hruns & _).
  exists w'. split; [exact Hrun|]. split; [exact Hruns|]. split.
  - apply sublist_filter.
  - apply StronglySorted_fmap_filter, Hs.
Qed.

(** C4. When every poll answers with replies in ascending order of
    identifier, no cursor of any thread ever moves back: not from one tick
    to the next, and not from one message of a tick to the next. *)
Theorem cursor_monotone (polls : list poll) w :
  (forall p thread_ts oldest,
     p ∈ polls -> ascending (get_thread_replies p thread_ts oldest)) ->
  forall done p rest,
    polls = done ++ p :: rest ->
    let w1 := after_ticks done w in
    cursor_le (listener_state w1) (listener_state (after_ticks (done ++ [p]) w))
    /\ forall thread_ts pre msg post,
         let last_seen := cursor (listener_state w1) thread_ts in
         get_thread_replies p thread_ts last_seen = pre ++ msg :: post ->
         cursor_le
           (listener_state (after thread_ts last_seen pre w1))
           (listener_state (after thread_ts last_seen (pre ++ [msg]) w1)).
Proof.
  intros Hasc done p rest -> w1.
  assert (Hp : forall thread_ts oldest,
             ascending (get_thread_replies p thread_ts oldest)).
  { intros t o. apply Hasc. apply elem_of_app. right. left. }
  split.
  - rewrite after_ticks_snoc. apply tick_monotone, Hp.
  - intros thread_ts pre msg post last_seen Hsplit.
    apply (replies_step_monotone thread_ts pre msg post w1).
    fold last_seen. rewrite <- Hsplit. apply Hp.
Qed.


End Loop.

(** *** An identity that could not be resolved *)

Lemma bot_origin_absent_identity bot_user_id msg :
  opt_truthy bot_user_id = false ->
  bot_origin bot_user_id msg = opt_truthy (bot_id msg).
Proof.
  intros H. unfold bot_origin. rewrite H. cbn [andb]. apply orb_false_r.
Qed.

(** C10 (amended). [get_bot_user_id] returns nothing when [auth.test]
    raises or answers without [ok]. With no identity the loop body does not
    look at the author of a message: it does the same for every author. A
    message that is newer than the cursor of the start of the tick and is
    not the thread root, has no bot identifier and has text left after
    trimming, is injected whoever its author is, the daemon's own user
    included; a message with a bot identifier still runs no script. *)
Theorem absent_identity_skips_author_filter
    (osascript : nat -> pystr -> option exn) (auth : option auth_response)
    (shortcut_key thread_ts last_seen : pystr) (msg : message) (w : world) :
  opt_truthy (get_bot_user_id auth) = false ->
  let bot_user_id := get_bot_user_id auth in
  (get_bot_user_id None = None
   /\ forall r, ok r = false -> get_bot_user_id (Some r) = None)
  /\ (forall u,
        handle_message osascript bot_user_id shortcut_key thread_ts
          last_seen (with_user u msg) w
        = handle_message osascript bot_user_id shortcut_key thread_ts
            last_seen msg w)
  /\ (is_new thread_ts last_seen msg = true ->
      opt_truthy (bot_id msg) = false ->
      PyStr.truthy (PyStr.strip (default [] (text msg))) = true ->
      forall u,
        handle_message osascript bot_user_id shortcut_key thread_ts
          last_seen (with_user u msg) w
        = (Ok tt, delivered osascript shortcut_key thread_ts msg w))
  /\ (opt_truthy (bot_id msg) = true ->
      forall u,
        runs (handle_message osascript bot_user_id shortcut_key thread_ts
                last_seen (with_user u msg) w).2 = runs w).
Proof.
  intros Habsent bot_user_id.
  assert (Hsame : forall u,
             handle_message osascript bot_user_id shortcut_key thread_ts
               last_seen (with_user u msg) w
             = handle_message osascript bot_user_id shortcut_key thread_ts
                 last_seen msg w).
  { intros u. rewrite !handle_message_cases. unfold qualifies.
    rewrite !(bot_origin_absent_identity _ _ Habsent).
    destruct msg; reflexivity. }
  split; [|split; [exact Hsame|split]].
  - split; [reflexivity|]. intros r Hr. unfold get_bot_user_id.
    rewrite Hr. reflexivity.
  - intros Hnew Hbot Htext u. rewrite Hsame.
    apply handle_message_delivered. unfold qualifies.
    rewrite (bot_origin_absent_identity _ _ Habsent), Hnew, Hbot, Htext.
    reflexivity.
  - intros Hbot u. rewrite Hsame, handle_message_cases. unfold qualifies.
    rewrite (bot_origin_absent_identity _ _ Habsent), Hbot.
    cbn [negb snd]. rewrite andb_false_r. cbn [andb].
    destruct (is_new thread_ts last_seen msg); reflexivity.
Qed.

(** *** The properties on the sample thread *)

Lemma bot_origin_never_injected_witness :
  let r := handle_message osascript_ok (Some (py "U0HOOK")) (py "l")
             sample_thread sample_thread sample_bot_reply empty_world in
  r.1 = Ok tt
  /\ runs r.2 = runs empty_world
  /\ (forall replies,
        sample_bot_reply
        ∉ injected (Some (py "U0HOOK")) sample_thread sample_thread replies)
  /\ (is_new sample_thread sample_thread sample_bot_reply = true ->
      listener_state r.2 !! sample_thread = Some (msg_ts sample_bot_reply))
  /\ (is_new sample_thread sample_thread sample_bot_reply = false ->
      r.2 = empty_world).
Proof.
  apply (bot_origin_never_injected osascript_ok (Some (py "U0HOOK")) (py "l")
           sample_thread sample_thread sample_bot_reply empty_world).
  vm_compute. reflexivity.
Defined.

(** C1, as first stated, fails: the root the hook posted carries a bot
    identifier and comes back with every poll, and the loop skips it as
    already seen, so the cursor stays where it was and is not set to the
    identifier of that message. *)
Lemma bot_message_below_cursor_keeps_cursor :
  let seen := py "1700000002.000300" in
  let w := World {[sample_thread := seen]} None [] [] in
  let p := Poll sample_threads (fun _ _ => [sample_root]) in
  let w' := (tick osascript_ok (Some (py "U0HOOK")) (py "l") p w).2 in
  bot_origin (Some (py "U0HOOK")) sample_root = true
  /\ runs w' = []
  /\ listener_state w' !! sample_thread = Some seen
  /\ listener_state w' !! sample_thread <> Some (msg_ts sample_root).
Proof. vm_compute. repeat split; discriminate. Qed.

Lemma root_never_injected_witness :
  (exists w',
     handle_replies osascript_ok (Some (py "U0HOOK")) (py "l") sample_thread
       sample_thread [sample_root; sample_reply; sample_bot_reply]
       empty_world = (Ok tt, w')
     /\ runs w'
        = runs empty_world
          ++ (script_for (py "l")
                <$> injected (Some (py "U0HOOK")) sample_thread sample_thread
                      [sample_root; sample_reply; sample_bot_reply])
     /\ Forall (fun msg => msg_ts msg <> sample_thread)
               (injected (Some (py "U0HOOK")) sample_thread sample_thread
                  [sample_root; sample_reply; sample_bot_reply]))
  /\ handle_message osascript_ok (Some (py "U0HOOK")) (py "l") sample_thread
       sample_thread sample_root empty_world = (Ok tt, empty_world)
  /\ cursor (listener_state empty_world) sample_thread = sample_thread.
Proof.
  destruct (root_never_injected osascript_ok (Some (py "U0HOOK")) (py "l")
              sample_thread sample_thread
              [sample_root; sample_reply; sample_bot_reply] empty_world)
    as (Hloop & Hroot & Hcursor).
  split; [exact Hloop|]. split.
  - apply Hroot. reflexivity.
  - apply Hcursor. reflexivity.
Defined.

Lemma injections_ascending_witness :
  exists w',
    handle_replies osascript_ok (Some (py "U0HOOK")) (py "l") sample_thread
      sample_thread [sample_root; sample_reply; sample_bot_reply]
      empty_world = (Ok tt, w')
    /\ runs w'
       = runs empty_world
         ++ (script_for (py "l")
               <$> injected (Some (py "U0HOOK")) sample_thread sample_thread
                     [sample_root; sample_reply; sample_bot_reply])
    /\ injected (Some (py "U0HOOK")) sample_thread sample_thread
         [sample_root; sample_reply; sample_bot_reply]
       `sublist_of` [sample_root; sample_reply; sample_bot_reply]
    /\ StronglySorted PyStr.lt
         (msg_ts <$> injected (Some (py "U0HOOK")) sample_thread
                       sample_thread
                       [sample_root; sample_reply; sample_bot_reply]).
Proof.
  apply (injections_ascending osascript_ok (Some (py "U0HOOK")) (py "l")
           sample_thread sample_thread
           [sample_root; sample_reply; sample_bot_reply] empty_world).
  apply (bool_decide_unpack _). vm_compute. exact I.
Defined.

Lemma cursor_monotone_witness :
  let w1 := after_ticks osascript_ok (Some (py "U0HOOK")) (py "l")
              [sample_poll] empty_world in
  cursor_le (listener_state w1)
    (listener_state
       (after_ticks osascript_ok (Some (py "U0HOOK")) (py "l")
          ([sample_poll] ++ [sample_poll]) empty_world))
  /\ forall thread_ts pre msg post,
       let last_seen := cursor (listener_state w1) thread_ts in
       get_thread_replies sample_poll thread_ts last_seen
       = pre ++ msg :: post ->
       cursor_le
         (listener_state
            (after osascript_ok (Some (py "U0HOOK")) (py "l") thread_ts
               last_seen pre w1))
         (listener_state
            (after osascript_ok (Some (py "U0HOOK")) (py "l") thread_ts
               last_seen (pre ++ [msg]) w1)).
Proof.
  apply (cursor_monotone osascript_ok (Some (py "U0HOOK")) (py "l")
           [sample_poll; sample_poll] empty_world)
    with (rest := []); [|reflexivity].
  intros p thread_ts oldest Hp.
  assert (Hsample : p = sample_poll).
  { rewrite !elem_of_cons in Hp.
    destruct Hp as [Hp|[Hp|Hp]]; [exact Hp|exact Hp|inversion Hp]. }
  rewrite Hsample. apply (bool_decide_unpack _). vm_compute. exact I.
Defined.



Lemma absent_identity_skips_author_filter_witness :
  let bot_user_id := get_bot_user_id None in
  let msg := sample_reply in
  (get_bot_user_id None = None
   /\ forall r, ok r = false -> get_bot_user_id (Some r) = None)
  /\ (forall u,
        handle_message osascript_ok bot_user_id (py "l") sample_thread
          sample_thread (with_user u msg) empty_world
        = handle_message osascript_ok bot_user_id (py "l") sample_thread
            sample_thread msg empty_world)
  /\ (is_new sample_thread sample_thread msg = true ->
      opt_truthy (bot_id msg) = false ->
      PyStr.truthy (PyStr.strip (default [] (text msg))) = true ->
      forall u,
        handle_message osascript_ok bot_user_id (py "l") sample_thread
          sample_thread (with_user u msg) empty_world
        = (Ok tt, delivered osascript_ok (py "l") sample_thread msg
                    empty_world))
  /\ (opt_truthy (bot_id msg) = true ->
      forall u,
        runs (handle_message osascript_ok bot_user_id (py "l") sample_thread
                sample_thread (with_user u msg) empty_world).2
        = runs empty_world).
Proof.
  apply (absent_identity_skips_author_filter osascript_ok None (py "l")
           sample_thread sample_thread sample_reply empty_world).
  reflexivity.
Defined.

(** C10, as first stated, fails: with no identity resolved, a reply of the
    daemon's own user with no bot identifier and with text, which comes
    back as the boundary message of the next poll, is not injected
    again. *)
Lemma absent_identity_seen_message_not_injected :
  let own := with_user (Some (py "U0HOOK")) sample_reply in
  let w := World {[sample_thread := msg_ts own]} None [] [] in
  let p := Poll sample_threads (fun _ _ => [own]) in
  let w' := (tick osascript_ok (get_bot_user_id None) (py "l") p w).2 in
  get_bot_user_id None = None
  /\ opt_truthy (bot_id own) = false
  /\ PyStr.truthy (PyStr.strip (default [] (text own))) = true
  /\ runs w' = [].
Proof. vm_compute. repeat split. Qed.

End ListenerFacts.

(** ** More about the thread store: writes, reads and retention together *)

Module StoreMore.

Import Dict Store DictFacts StoreFacts.

Lemma set_set {V} (k : pystr) (v v' : V) (d : dict V) :
  set k v (set k v' d) = set k v d.
Proof.
  induction d as [|[k0 v0] d IH]; cbn [set].
  - rewrite (proj2 (eqb_true k k) eq_refl). reflexivity.
  - destruct (PyStr.eqb k0 k) eqn:E; cbn [set]; rewrite E; [reflexivity|].
    rewrite IH. reflexivity.
Qed.

Lemma load_fold_NoDup (data : dict docval) (acc : dict entry) :
  NoDup (keys acc) ->
  NoDup (keys (fold_left (fun migrated kv => set kv.1 (migrate kv.2) migrated)
                 data acc)).
Proof.
  revert acc. induction data as [|kv data IH]; intros acc Hnd; [exact Hnd|].
  cbn [fold_left]. apply IH, set_NoDup, Hnd.
Qed.

(** What [_load_state] returns is a dictionary: its keys are distinct. *)
Lemma load_state_NoDup (file : document) : NoDup (keys (_load_state file)).
Proof.
  destruct file as [data|]; [|constructor].
  apply load_fold_NoDup. constructor.
Qed.

(** The dictionary [save_thread_ts] hands to [_save_state]. *)
Lemma save_thread_ts_eq (cid ts : pystr) (file : document) :
  save_thread_ts cid ts file
  = _save_state
      (set cid (Entry (Some ts) (get cid (_load_state file) ≫= file_id))
         (_load_state file)).
Proof.
  unfold save_thread_ts, mem.
  destruct (get cid (_load_state file)) as [e|] eqn:E.
  - rewrite E. reflexivity.
  - rewrite get_set_eq, set_set. reflexivity.
Qed.

Lemma save_transcript_file_id_eq (cid fid : pystr) (file : document) :
  save_transcript_file_id cid fid file
  = _save_state
      (set cid (Entry (get cid (_load_state file) ≫= thread_ts) (Some fid))
         (_load_state file)).
Proof.
  unfold save_transcript_file_id, mem.
  destruct (get cid (_load_state file)) as [e|] eqn:E.
  - rewrite E. reflexivity.
  - rewrite get_set_eq, set_set. reflexivity.
Qed.

Lemma prune_length_le state :
  NoDup (keys state) -> length (prune state) <= 100.
Proof.
  intros Hnd. destruct (decide (100 < length state)) as [Hbig|Hsmall].
  - rewrite prune_length by assumption. lia.
  - rewrite prune_small by lia. lia.
Qed.

(** X1. A dictionary of at most 100 links is read back from what
    [_save_state] wrote exactly as it was: same keys, same order, same
    records. *)
Theorem save_load_roundtrip (state : dict entry) :
  NoDup (keys state) -> length state <= 100 ->
  _load_state (_save_state state) = state.
Proof.
  intros Hnd Hlen. rewrite load_save_state by exact Hnd.
  apply prune_small, Hlen.
Qed.

Lemma save_load_roundtrip_witness :
  _load_state (_save_state (link <$> sample_links 3))
  = link <$> sample_links 3.
Proof.
  apply save_load_roundtrip.
  - apply (bool_decide_unpack _). vm_compute. exact I.
  - vm_compute. lia.
Defined.

(** X2. For a thread file of links (each value a bare thread identifier
    or a record), however many it held before, after [save_thread_ts] or
    [save_transcript_file_id] it holds at most 100 links. *)
Theorem writes_bound_store (file : document) (cid v : pystr) :
  length (_load_state (save_thread_ts cid v file)) <= 100
  /\ length (_load_state (save_transcript_file_id cid v file)) <= 100.
Proof.
  rewrite save_thread_ts_eq, save_transcript_file_id_eq.
  split; rewrite load_save_state
    by (apply set_NoDup, load_state_NoDup);
    apply prune_length_le, set_NoDup, load_state_NoDup.
Qed.

Lemma fits_length file cid (e : entry) :
  fits file cid -> length (set cid e (_load_state file)) <= 100.
Proof.
  intros [Hlt|[Hmem Hle]].
  - pose proof (length_set_le cid e (_load_state file)). lia.
  - rewrite length_set_mem by (apply mem_elem_of, Hmem). exact Hle.
Qed.

Lemma load_save_thread_ts_fits file cid ts :
  fits file cid ->
  _load_state (save_thread_ts cid ts file)
  = set cid (Entry (Some ts) (get cid (_load_state file) ≫= file_id))
        (_load_state file).
Proof.
  intros Hfit. rewrite save_thread_ts_eq.
  apply save_load_roundtrip; [apply set_NoDup, load_state_NoDup|].
  apply fits_length, Hfit.
Qed.

Lemma load_save_file_id_fits file cid fid :
  fits file cid ->
  _load_state (save_transcript_file_id cid fid file)
  = set cid (Entry (get cid (_load_state file) ≫= thread_ts) (Some fid))
        (_load_state file).
Proof.
  intros Hfit. rewrite save_transcript_file_id_eq.
  apply save_load_roundtrip; [apply set_NoDup, load_state_NoDup|].
  apply fits_length, Hfit.
Qed.

(** X3. When the write fits in the store (fewer than 100 links, or the
    conversation is already one of at most 100), a thread identifier or a
    transcript identifier that was saved is the one read back, saving one
    of the two leaves the other as it was, and no other conversation is
    touched. *)
Theorem save_then_get (file : document) (cid v : pystr) :
  fits file cid ->
  (get_thread_ts (save_thread_ts cid v file) cid = Some v
   /\ get_transcript_file_id (save_thread_ts cid v file) cid
      = get_transcript_file_id file cid)
  /\ (get_transcript_file_id (save_transcript_file_id cid v file) cid = Some v
      /\ get_thread_ts (save_transcript_file_id cid v file) cid
         = get_thread_ts file cid)
  /\ forall other,
       other <> cid ->
       get other (_load_state (save_thread_ts cid v file))
       = get other (_load_state file)
       /\ get other (_load_state (save_transcript_file_id cid v file))
          = get other (_load_state file).
Proof.
  intros Hfit. unfold get_thread_ts, get_transcript_file_id.
  rewrite (load_save_thread_ts_fits _ _ _ Hfit).
  rewrite (load_save_file_id_fits _ _ _ Hfit).
  rewrite !get_set_eq. cbn [thread_ts file_id].
  split; [|split].
  - split; [reflexivity|].
    destruct (get cid (_load_state file)); reflexivity.
  - split; [reflexivity|].
    destruct (get cid (_load_state file)); reflexivity.
  - intros other Hne. rewrite !get_set_ne by congruence. auto.
Qed.

Lemma save_then_get_witness :
  let file : document := None in
  let cid := py "conv-1" in
  let v := py "1700000000.000100" in
  (get_thread_ts (save_thread_ts cid v file) cid = Some v
   /\ get_transcript_file_id (save_thread_ts cid v file) cid
      = get_transcript_file_id file cid)
  /\ (get_transcript_file_id (save_transcript_file_id cid v file) cid = Some v
      /\ get_thread_ts (save_transcript_file_id cid v file) cid
         = get_thread_ts file cid)
  /\ forall other,
       other <> cid ->
       get other (_load_state (save_thread_ts cid v file))
       = get other (_load_state file)
       /\ get other (_load_state (save_transcript_file_id cid v file))
          = get other (_load_state file).
Proof.
  apply save_then_get. left. vm_compute. lia.
Defined.

(** *** Retention against the write that triggers it *)

Lemma filter_shorter_misses {A} (P : A -> Prop) `{!forall x, Decision (P x)}
    (l : list A) :
  length (filter P l) < length l -> exists x, x ∈ l /\ ~ P x.
Proof.
  induction l as [|x l IH]; intros Hlen; [simpl in Hlen; lia|].
  destruct (decide (P x)) as [Hp|Hp].
  - rewrite filter_cons_True in Hlen by exact Hp. simpl in Hlen.
    destruct IH as (y & Hy & Hny); [lia|].
    exists y. split; [right; exact Hy|exact Hny].
  - exists x. split; [left|exact Hp].
Qed.

(** Among more than 100 links some link is deleted. *)
Lemma prune_drops_some state :
  NoDup (keys state) -> 100 < length state ->
  exists k e, (k, e) ∈ state /\ (k, e) ∉ prune state.
Proof.
  intros Hnd Hbig.
  pose proof (prune_length state Hnd Hbig) as Hlen.
  rewrite prune_filter in Hlen |- * by assumption.
  destruct (filter_shorter_misses
              (fun kv : pystr * entry => kv.1 ∉ evicted state) state)
    as ([k e] & Hin & Hnp); [rewrite Hlen; exact Hbig|].
  exists k, e. split; [exact Hin|].
  intros Hf. apply list_elem_of_filter in Hf as [Hf _]. exact (Hnp Hf).
Qed.

Lemma elem_of_set_other {V} (k k' : pystr) (v v' : V) (d : dict V) :
  NoDup (keys d) -> (k', v') ∈ set k v d -> k' <> k -> (k', v') ∈ d.
Proof.
  intros Hnd Hin Hne. apply get_Some_elem_of.
  rewrite <- (get_set_ne k k' v d) by congruence.
  apply get_elem_of; [apply set_NoDup, Hnd|exact Hin].
Qed.

Lemma elem_of_set_same {V} (k : pystr) (v v' : V) (d : dict V) :
  NoDup (keys d) -> (k, v') ∈ set k v d -> v' = v.
Proof.
  intros Hnd Hin.
  pose proof (get_elem_of k v' _ (set_NoDup k v d Hnd) Hin) as Hget.
  rewrite get_set_eq in Hget. congruence.
Qed.

Lemma prune_elem_of state kv :
  NoDup (keys state) -> kv ∈ prune state -> kv ∈ state.
Proof.
  intros Hnd Hin. destruct (decide (100 < length state)) as [Hbig|Hsmall].
  - rewrite prune_filter in Hin by assumption.
    apply list_elem_of_filter in Hin as [_ Hin]. exact Hin.
  - rewrite prune_small in Hin by lia. exact Hin.
Qed.

(** X4. A link saved into a store that already holds 100 or more links,
    all with a later thread identifier, is deleted by the very write that
    stores it: the thread of the conversation reads back as absent. *)
Theorem oldest_link_lost_on_write (file : document) (cid ts : pystr) :
  100 <= length (_load_state file) ->
  cid ∉ keys (_load_state file) ->
  (forall k e, (k, e) ∈ _load_state file -> PyStr.lt ts (key_ts e)) ->
  get_thread_ts (save_thread_ts cid ts file) cid = None.
Proof.
  intros Hfull Hfresh Hnewer.
  pose proof (load_state_NoDup file) as Hnd0.
  rewrite save_thread_ts_eq. rewrite (get_fresh _ _ Hfresh). cbn [mbind option_bind].
  set (st1 := set cid (Entry (Some ts) None) (_load_state file)).
  assert (Hnd1 : NoDup (keys st1)) by (apply set_NoDup, Hnd0).
  assert (Hbig : 100 < length st1).
  { unfold st1. rewrite length_set_fresh by exact Hfresh. lia. }
  unfold get_thread_ts. rewrite load_save_state by exact Hnd1.
  destruct (get cid (prune st1)) as [e'|] eqn:Hget; [|reflexivity].
  exfalso. apply get_Some_elem_of in Hget.
  pose proof (prune_elem_of _ _ Hnd1 Hget) as Hin1.
  apply (elem_of_set_same cid _ e' _ Hnd0) in Hin1. subst e'.
  destruct (prune_drops_some st1 Hnd1 Hbig) as (k & e & Hin & Hout).
  assert (Hk : k <> cid).
  { intros ->. apply (elem_of_set_same cid _ e _ Hnd0) in Hin.
    subst e. exact (Hout Hget). }
  pose proof (elem_of_set_other _ _ _ _ _ Hnd0 Hin Hk) as Hin0.
  pose proof (prune_evicts_oldest st1 k e cid _ Hnd1 Hbig Hin Hout Hget) as Hle.
  change (PyStr.le (key_ts e) ts) in Hle.
  specialize (Hnewer k e Hin0).
  unfold PyStr.lt, PyStr.le in *.
  rewrite PyStrFacts.leb_negb_ltb, Hnewer in Hle. discriminate.
Qed.

Lemma oldest_link_lost_on_write_witness :
  get_thread_ts
    (save_thread_ts (py "conv-old") (py "1600000000.000100")
       (_save_state (link <$> sample_links 100)))
    (py "conv-old") = None.
Proof.
  apply oldest_link_lost_on_write.
  - vm_compute. lia.
  - apply (bool_decide_unpack _). vm_compute. exact I.
  - intros k e Hin. revert k e Hin.
    assert (Hall : Forall (fun kv : pystr * entry =>
                     PyStr.lt (py "1600000000.000100") (key_ts kv.2))
                     (_load_state (_save_state (link <$> sample_links 100)))).
    { apply (bool_decide_unpack _). vm_compute. exact I. }
    intros k e Hin. rewrite Forall_forall in Hall. apply (Hall (k, e) Hin).
Defined.

(** *** The most recent thread and the links *)

Lemma lt_zero_truthy (ts : pystr) :
  PyStr.lt (py "0") ts -> PyStr.truthy ts = true.
Proof. destruct ts; [discriminate|reflexivity]. Qed.

Lemma entry_ts_thread_ts (e : entry) :
  PyStr.lt (py "0") (entry_ts e) -> thread_ts e = Some (entry_ts e).
Proof.
  unfold entry_ts. destruct (thread_ts e); [reflexivity|].
  intros H. discriminate.
Qed.

(** X5. The pair [get_most_recent_thread] returns is a link of the store:
    the conversation is not the empty string, the thread identifier is not
    empty, and [get_thread_ts] of that conversation is that identifier. *)
Theorem most_recent_is_stored_link (file : document) (cid ts : pystr) :
  get_most_recent_thread file = Some (cid, ts) ->
  get_thread_ts file cid = Some ts
  /\ PyStr.truthy ts = true
  /\ PyStr.truthy cid = true.
Proof.
  unfold get_most_recent_thread, get_thread_ts.
  pose proof (load_state_NoDup file) as Hnd.
  destruct (_load_state file) as [|kv0 st0] eqn:Est; [discriminate|].
  destruct (scan_inv (kv0 :: st0) None (py "0"))
    as [[Hs _]|(pre & c & e & post & Hst & Hs & Hlt & _)];
    rewrite Hs; [discriminate|].
  destruct (PyStr.truthy c) eqn:Hc; [|discriminate].
  intros [= <- <-].
  assert (Hget : get c (kv0 :: st0) = Some e).
  { apply get_elem_of; [exact Hnd|].
    rewrite Hst. apply elem_of_app. right. left. }
  rewrite Hget, (entry_ts_thread_ts e Hlt).
  split; [reflexivity|]. split; [apply lt_zero_truthy, Hlt|exact Hc].
Qed.

Lemma most_recent_is_stored_link_witness :
  let file := _save_state (link <$> sample_links 3) in
  let cid := py "conv-" ++ [N.of_nat 1002] in
  let ts := py "1700000000." ++ [N.of_nat 1002] in
  get_thread_ts file cid = Some ts
  /\ PyStr.truthy ts = true
  /\ PyStr.truthy cid = true.
Proof.
  apply most_recent_is_stored_link. vm_compute. reflexivity.
Defined.

(** The one link above all others ends the scan. *)
Lemma scan_single_max pre cid e post c0 t0 :
  PyStr.lt t0 (entry_ts e) ->
  Forall (fun kv => PyStr.lt (entry_ts kv.2) (entry_ts e)) pre ->
  Forall (fun kv => PyStr.lt (entry_ts kv.2) (entry_ts e)) post ->
  scan (pre ++ (cid, e) :: post) (c0, t0) = (Some cid, entry_ts e).
Proof.
  intros Hlt Hpre Hpost. rewrite scan_app, scan_cons.
  pose proof (scan_below pre c0 t0 _ Hlt Hpre) as Hb.
  destruct (scan pre (c0, t0)) as [c1 t1]. cbn [snd] in Hb.
  unfold scan_step. cbn [fst snd]. fold (entry_ts e).
  unfold PyStr.lt in Hb. rewrite Hb. apply scan_noop.
  eapply Forall_impl; [exact Hpost|].
  intros kv H. apply PyStrFacts.ltb_leb, H.
Qed.

Lemma key_ts_le_entry_ts (e : entry) (ts : pystr) :
  PyStr.lt (py "0") ts -> PyStr.lt (entry_ts e) ts -> PyStr.lt (key_ts e) ts.
Proof.
  unfold entry_ts, key_ts. destruct (thread_ts e); simpl; [auto|].
  intros H _. destruct ts; [discriminate|reflexivity].
Qed.

(** X6. A thread saved with an identifier above ["0"] and above the thread
    identifier of every other conversation, for a conversation that is not
    the empty string, is what [get_most_recent_thread] returns next,
    whatever the size of the store: retention never deletes it. *)
Theorem newest_thread_is_most_recent (file : document) (cid ts : pystr) :
  PyStr.truthy cid = true ->
  PyStr.lt (py "0") ts ->
  (forall k e, (k, e) ∈ _load_state file -> k <> cid ->
               PyStr.lt (entry_ts e) ts) ->
  get_most_recent_thread (save_thread_ts cid ts file) = Some (cid, ts).
Proof.
  intros Hcid Hpos Holder.
  pose proof (load_state_NoDup file) as Hnd0.
  rewrite save_thread_ts_eq.
  set (E := Entry (Some ts) (get cid (_load_state file) ≫= file_id)).
  set (st1 := set cid E (_load_state file)).
  assert (Hnd1 : NoDup (keys st1)) by (apply set_NoDup, Hnd0).
  assert (Hin1 : (cid, E) ∈ st1).
  { apply get_Some_elem_of. apply get_set_eq. }
  assert (Hothers : forall k e, (k, e) ∈ st1 -> k <> cid ->
                                PyStr.lt (entry_ts e) ts).
  { intros k e Hin Hne. apply (Holder k e); [|exact Hne].
    apply (elem_of_set_other cid k E e _ Hnd0 Hin Hne). }
  assert (Hkept : (cid, E) ∈ prune st1).
  { destruct (decide (100 < length st1)) as [Hbig|Hsmall];
      [|rewrite prune_small by lia; exact Hin1].
    destruct (decide (cid ∈ evicted st1)) as [Hev|Hnev];
      [|rewrite prune_filter by assumption;
        apply list_elem_of_filter; split; [exact Hnev|exact Hin1]].
    exfalso.
    assert (Hout : (cid, E) ∉ prune st1).
    { rewrite prune_filter by assumption. intros Hf.
      apply list_elem_of_filter in Hf as [Hf _]. exact (Hf Hev). }
    pose proof (prune_length st1 Hnd1 Hbig) as Hlen.
    destruct (prune st1) as [|[k' e'] rest] eqn:Hp; [discriminate|].
    assert (Hk' : (k', e') ∈ prune st1) by (rewrite Hp; left).
    pose proof (prune_elem_of _ _ Hnd1 Hk') as Hk1.
    assert (Hne : k' <> cid).
    { intros ->. apply (elem_of_set_same cid E e' _ Hnd0) in Hk1.
      subst e'. apply Hout. left. }
    pose proof (prune_evicts_oldest st1 cid E k' e' Hnd1 Hbig Hin1) as Hle.
    rewrite Hp in Hle. specialize (Hle Hout ltac:(left)).
    change (PyStr.le ts (key_ts e')) in Hle.
    pose proof (key_ts_le_entry_ts e' ts Hpos (Hothers k' e' Hk1 Hne)) as Hlt.
    unfold PyStr.lt, PyStr.le in *.
    rewrite PyStrFacts.leb_negb_ltb, Hlt in Hle. discriminate. }
  unfold get_most_recent_thread. rewrite load_save_state by exact Hnd1.
  pose proof (prune_NoDup st1 Hnd1) as Hndp.
  apply list_elem_of_split in Hkept as (pre & post & Hsplit).
  rewrite Hsplit in Hndp |- *.
  assert (Hrest : forall kv, kv ∈ pre ++ post ->
                             PyStr.lt (entry_ts kv.2) ts).
  { intros [k e] Hin. apply (Hothers k e).
    - apply (prune_elem_of _ _ Hnd1). rewrite Hsplit.
      apply elem_of_app in Hin as [Hin|Hin]; apply elem_of_app;
        [left; exact Hin|right; right; exact Hin].
    - intros ->. unfold keys in Hndp. rewrite fmap_app, fmap_cons in Hndp.
      apply NoDup_app in Hndp as (_ & Hdisj & Hndpost).
      apply NoDup_cons in Hndpost as [Hnotpost _].
      apply elem_of_app in Hin as [Hin|Hin].
      + apply (Hdisj cid); [apply (list_elem_of_fmap_2 fst _ (cid, e)), Hin|].
        left.
      + apply Hnotpost. apply (list_elem_of_fmap_2 fst _ (cid, e)), Hin. }
  assert (Hs : scan (pre ++ (cid, E) :: post) (None, py "0")
               = (Some cid, ts)).
  { apply (scan_single_max pre cid E post None (py "0")); [exact Hpos| |];
      apply Forall_forall; intros kv Hin; apply Hrest, elem_of_app; auto. }
  destruct (pre ++ (cid, E) :: post) eqn:Hl;
    [destruct pre; discriminate|].
  rewrite Hs, Hcid. reflexivity.
Qed.

Lemma newest_thread_is_most_recent_witness :
  get_most_recent_thread
    (save_thread_ts (py "conv-new") (py "1800000000.000100")
       (_save_state (link <$> sample_links 100)))
  = Some (py "conv-new", py "1800000000.000100").
Proof.
  apply newest_thread_is_most_recent.
  - reflexivity.
  - reflexivity.
  - assert (Hall : Forall (fun kv : pystr * entry =>
                     PyStr.lt (entry_ts kv.2) (py "1800000000.000100"))
                     (_load_state (_save_state (link <$> sample_links 100)))).
    { apply (bool_decide_unpack _). vm_compute. exact I. }
    intros k e Hin _. rewrite Forall_forall in Hall. apply (Hall (k, e) Hin).
Defined.

End StoreMore.

(** ** More about the listener: cursors, repeats, restarts and escaping *)

Module ListenerMore.

Import Listener ListenerFacts.

Section Loop.
Variable osascript : nat -> pystr -> option exn.
Variables (bot_user_id : option pystr) (shortcut_key : pystr).

Local Abbreviation after :=
  (Listener.after osascript bot_user_id shortcut_key).
Local Abbreviation after_ticks :=
  (Listener.after_ticks osascript bot_user_id shortcut_key).
Local Abbreviation handle_message :=
  (Listener.handle_message osascript bot_user_id shortcut_key).
Local Abbreviation handle_replies :=
  (Listener.handle_replies osascript bot_user_id shortcut_key).
Local Abbreviation tick := (Listener.tick osascript bot_user_id shortcut_key).

Lemma after_snoc thread_ts last_seen replies msg w :
  after thread_ts last_seen (replies ++ [msg]) w
  = (handle_message thread_ts last_seen msg
       (after thread_ts last_seen replies w)).2.
Proof. apply handle_replies_snoc. Qed.

Lemma after_cons thread_ts last_seen msg replies w :
  after thread_ts last_seen (msg :: replies) w
  = after thread_ts last_seen replies
      (handle_message thread_ts last_seen msg w).2.
Proof. unfold Listener.after. rewrite handle_replies_cons. reflexivity. Qed.

Lemma after_app thread_ts last_seen l1 l2 w :
  after thread_ts last_seen (l1 ++ l2) w
  = after thread_ts last_seen l2 (after thread_ts last_seen l1 w).
Proof.
  revert w. induction l1 as [|m l1 IH]; intros w; [reflexivity|].
  cbn [app]. rewrite !after_cons. apply IH.
Qed.

Lemma handle_replies_after thread_ts last_seen replies w :
  handle_replies thread_ts last_seen replies w
  = (Ok tt, after thread_ts last_seen replies w).
Proof.
  destruct (handle_replies_returns osascript bot_user_id shortcut_key
              thread_ts last_seen replies w) as (w' & Hrun & _).
  unfold Listener.after. rewrite Hrun. reflexivity.
Qed.

(** X7. After the loop of a tick the cursor of the thread is the
    identifier of the last message of the poll, in list order, that is
    newer than the cursor of the start of the tick and is not the root,
    whether it was injected or not; when there is none the dictionary is
    as before. The cursor of no other thread changes. *)
Theorem cursor_after_tick_is_last_new thread_ts last_seen replies w :
  listener_state (after thread_ts last_seen replies w)
  = match last_new thread_ts last_seen replies with
    | Some msg => <[thread_ts := msg_ts msg]> (listener_state w)
    | None => listener_state w
    end
  /\ forall other,
       other <> thread_ts ->
       listener_state (after thread_ts last_seen replies w) !! other
       = listener_state w !! other.
Proof.
  assert (Hst : listener_state (after thread_ts last_seen replies w)
                = match last_new thread_ts last_seen replies with
                  | Some msg => <[thread_ts := msg_ts msg]> (listener_state w)
                  | None => listener_state w
                  end).
  { unfold last_new.
    induction replies as [|msg replies IH] using rev_ind; [reflexivity|].
    rewrite after_snoc, listener_state_step, filter_app.
    destruct (is_new thread_ts last_seen msg) eqn:Hnew.
    - rewrite filter_cons_True by exact Hnew. rewrite filter_nil, last_snoc.
      rewrite IH.
      destruct (last (filter _ replies)); [apply insert_insert_eq|reflexivity].
    - rewrite filter_cons_False by (rewrite Hnew; discriminate).
      rewrite filter_nil, app_nil_r. exact IH. }
  split; [exact Hst|]. intros other Hne. rewrite Hst.
  destruct (last_new thread_ts last_seen replies); [|reflexivity].
  apply lookup_insert_ne. congruence.
Qed.

(** A list of messages none of which is new is read without effect. *)
Lemma after_all_old thread_ts last_seen replies w :
  Forall (fun msg => is_new thread_ts last_seen msg = false) replies ->
  after thread_ts last_seen replies w = w.
Proof.
  intros Hall. revert w.
  induction Hall as [|msg replies Hold _ IH]; intros w; [reflexivity|].
  rewrite after_cons.
  rewrite (handle_message_old osascript bot_user_id shortcut_key _ _ _ _ Hold).
  apply IH.
Qed.

(** With ascending replies, the cursor at the end of the loop is at or
    above every message that was new. *)
Lemma new_message_below_final thread_ts replies msg w :
  let last_seen := cursor (listener_state w) thread_ts in
  ascending replies -> msg ∈ replies ->
  is_new thread_ts last_seen msg = true ->
  PyStr.le (msg_ts msg)
    (cursor (listener_state (after thread_ts last_seen replies w)) thread_ts).
Proof.
  intros last_seen Hasc Hin Hnew.
  apply list_elem_of_split in Hin as (pre & post & ->).
  pose proof (ahead_start thread_ts _ w Hasc) as Hah. fold last_seen in Hah.
  apply (ahead_after osascript bot_user_id shortcut_key) in Hah as [_ Hah].
  apply (ahead_step osascript bot_user_id shortcut_key) in Hah as [_ Hah].
  rewrite <- (app_nil_r post) in Hah.
  apply (ahead_after osascript bot_user_id shortcut_key) in Hah as [Hle _].
  specialize (Hle thread_ts).
  rewrite (listener_state_step osascript bot_user_id shortcut_key) in Hle.
  rewrite Hnew, cursor_insert_eq in Hle.
  rewrite after_app, after_cons. exact Hle.
Qed.

(** X8. When the replies of a poll ascend, reading the same replies again
    right after the tick does nothing: no script is run a second time, no
    cursor moves, nothing is logged. *)
Theorem repeated_poll_is_idle thread_ts replies w :
  ascending replies ->
  let w1 := after thread_ts (cursor (listener_state w) thread_ts) replies w in
  handle_replies thread_ts (cursor (listener_state w1) thread_ts) replies w1
  = (Ok tt, w1).
Proof.
  intros Hasc w1. rewrite handle_replies_after. f_equal.
  apply after_all_old. apply Forall_forall. intros msg Hin.
  unfold is_new.
  destruct (PyStr.eqb (msg_ts msg) thread_ts) eqn:Hroot;
    [apply andb_false_r|].
  rewrite andb_true_r. apply negb_false_iff.
  destruct (is_new thread_ts (cursor (listener_state w) thread_ts) msg)
    eqn:Hnew.
  - apply (new_message_below_final thread_ts replies msg w Hasc Hin Hnew).
  - unfold is_new in Hnew. rewrite Hroot, andb_true_r in Hnew.
    apply negb_false_iff in Hnew.
    eapply PyStrFacts.leb_trans; [exact Hnew|].
    apply (replies_monotone osascript bot_user_id shortcut_key thread_ts
             replies w Hasc).
Qed.

(** X9. A message without a [ts] is skipped by the loop body whatever else
    it holds and wherever the cursor is: the world is unchanged. A message
    whose text is missing or is only white space runs no script and is not
    among the injected messages of any tick. *)
Theorem malformed_message_never_injected thread_ts last_seen msg w :
  (ts msg = None -> handle_message thread_ts last_seen msg w = (Ok tt, w))
  /\ (PyStr.strip (default [] (text msg)) = [] ->
      runs (handle_message thread_ts last_seen msg w).2 = runs w
      /\ forall replies,
           msg ∉ injected bot_user_id thread_ts last_seen replies).
Proof.
  split.
  - intros Hts. apply handle_message_old. unfold is_new, msg_ts.
    rewrite Hts. cbn [default from_option id].
    destruct last_seen; reflexivity.
  - intros Hempty.
    assert (Hq : qualifies bot_user_id thread_ts last_seen msg = false).
    { unfold qualifies. rewrite Hempty. apply andb_false_r. }
    split.
    + rewrite handle_message_cases, Hq. cbn [snd].
      destruct (is_new thread_ts last_seen msg); reflexivity.
    + intros replies Hin. unfold injected in Hin.
      apply list_elem_of_filter in Hin as [Hin _]. congruence.
Qed.

(** *** Restarting the daemon *)

Lemma tick_synced (p : poll) w :
  synced w -> synced (tick p w).2.
Proof.
  intros Hs.
  destruct (tick_cases osascript bot_user_id shortcut_key p w)
    as [H|(cid & thread_ts & _ & H)]; rewrite H; [exact Hs|reflexivity].
Qed.

Lemma after_ticks_cons p polls w :
  after_ticks (p :: polls) w = after_ticks polls (tick p w).2.
Proof. unfold Listener.after_ticks. rewrite run_ticks_cons. reflexivity. Qed.

Lemma after_ticks_synced polls w :
  synced w -> synced (after_ticks polls w).
Proof.
  revert w. induction polls as [|p polls IH]; intros w Hs; [exact Hs|].
  rewrite after_ticks_cons. apply IH, tick_synced, Hs.
Qed.

Lemma after_ticks_app polls1 polls2 w :
  after_ticks (polls1 ++ polls2) w
  = after_ticks polls2 (after_ticks polls1 w).
Proof.
  revert w. induction polls1 as [|p polls1 IH]; intros w; [reflexivity|].
  cbn [app]. rewrite !after_ticks_cons. apply IH.
Qed.

End Loop.

Lemma repeated_poll_is_idle_witness :
  let replies := [sample_root; sample_reply; sample_bot_reply] in
  let w1 := Listener.after osascript_ok (Some (py "U0HOOK")) (py "l")
              sample_thread
              (cursor (listener_state empty_world) sample_thread) replies
              empty_world in
  Listener.handle_replies osascript_ok (Some (py "U0HOOK")) (py "l")
    sample_thread (cursor (listener_state w1) sample_thread) replies w1
  = (Ok tt, w1).
Proof.
  apply (repeated_poll_is_idle osascript_ok (Some (py "U0HOOK")) (py "l")
           sample_thread [sample_root; sample_reply; sample_bot_reply]
           empty_world).
  apply (bool_decide_unpack _). vm_compute. exact I.
Defined.

Lemma malformed_message_never_injected_witness :
  let no_ts := Message None None (Some (py "U1HUMAN")) (Some (py "hi")) in
  let blank := Message (Some (py "1700000001.000200")) None
                 (Some (py "U1HUMAN")) (Some (py "  ")) in
  Listener.handle_message osascript_ok None (py "l") sample_thread
    sample_thread no_ts empty_world = (Ok tt, empty_world)
  /\ runs (Listener.handle_message osascript_ok None (py "l") sample_thread
             sample_thread blank empty_world).2 = runs empty_world
  /\ forall replies,
       blank ∉ injected None sample_thread sample_thread replies.
Proof.
  intros no_ts blank.
  pose proof (malformed_message_never_injected osascript_ok None (py "l")
                sample_thread sample_thread no_ts empty_world) as [H1 _].
  pose proof (malformed_message_never_injected osascript_ok None (py "l")
                sample_thread sample_thread blank empty_world) as [_ H2].
  split; [apply H1; reflexivity|]. apply H2. reflexivity.
Defined.

(** The world [run_listener] starts its loop from. *)
Lemma run_listener_after osascript auth shortcut_key polls w :
  run_listener osascript auth shortcut_key polls w
  = (Ok tt,
     Listener.after_ticks osascript (get_bot_user_id auth) shortcut_key polls
       (World (_load_listener_state w) (listener_file w) (runs w) (logs w))).
Proof.
  unfold run_listener, Listener.after_ticks.
  pose proof (run_ticks_returns osascript (get_bot_user_id auth) shortcut_key
                polls
                (World (_load_listener_state w) (listener_file w) (runs w)
                   (logs w))) as Hok.
  destruct (run_ticks _ _ _ _ _) as [r w']. cbn [fst] in Hok. subst r.
  reflexivity.
Qed.

(** X10. However [run_listener] is stopped between two ticks, the cursors
    in memory are those of the file, and starting it again on the polls that
    follow ends in the same world as one run over all the polls: nothing
    already read is injected again. *)
Theorem restart_resumes osascript auth shortcut_key polls1 polls2 w :
  synced (run_listener osascript auth shortcut_key polls1 w).2
  /\ (run_listener osascript auth shortcut_key polls2
        (run_listener osascript auth shortcut_key polls1 w).2).2
     = (run_listener osascript auth shortcut_key (polls1 ++ polls2) w).2.
Proof.
  rewrite !run_listener_after. cbn [snd].
  set (w0 := World (_load_listener_state w) (listener_file w) (runs w)
                   (logs w)).
  assert (Hs : synced (Listener.after_ticks osascript (get_bot_user_id auth)
                         shortcut_key polls1 w0)).
  { apply after_ticks_synced. reflexivity. }
  split; [exact Hs|].
  rewrite after_ticks_app. f_equal.
  unfold synced in Hs. rewrite <- Hs.
  destruct (Listener.after_ticks _ _ _ _ _). reflexivity.
Qed.

(** *** The escaping of [inject_message] *)

Lemma replace1_flat_map old new s :
  PyStr.replace1 old new s
  = flat_map (fun c => if (c =? old)%N then new else [c]) s.
Proof. reflexivity. Qed.

Lemma escape_per_char message :
  escape message = flat_map escape_char message.
Proof.
  unfold escape, PyStr.replace1.
  induction message as [|c m IH]; [reflexivity|].
  cbn [flat_map]. rewrite flat_map_app, IH. f_equal.
  unfold escape_char.
  destruct (c =? 92)%N eqn:E92; [reflexivity|].
  cbn [flat_map]. rewrite app_nil_r.
  destruct (c =? 34)%N; reflexivity.
Qed.

(** X11. The two [replace] calls of [inject_message] escape the message one
    character at a time (backslashes first, so the backslash put before a
    quote is not doubled); the escaped text has no bare quote and no
    dangling backslash, so it cannot end the string literal it is put in;
    and read back as a literal it is the message again. *)
Theorem escape_keeps_literal_closed message shortcut_key :
  (py "set the clipboard to " ++ quote ++ escape message ++ quote)
    `prefix_of` script_of message shortcut_key
  /\ escape message = flat_map escape_char message
  /\ well_escaped (escape message) = true
  /\ unescape (escape message) = message.
Proof.
  split; [|split; [apply escape_per_char|]].
  - unfold script_of. fold (escape message).
    eexists. rewrite <- !app_assoc. reflexivity.
  - rewrite escape_per_char. split.
    + induction message as [|c m IH]; [reflexivity|].
      cbn [flat_map]. unfold escape_char at 1.
      destruct (c =? 92)%N eqn:E92; [exact IH|].
      destruct (c =? 34)%N eqn:E34; [exact IH|].
      cbn [app well_escaped]. rewrite E92, E34. exact IH.
    + induction message as [|c m IH]; [reflexivity|].
      cbn [flat_map]. unfold escape_char at 1.
      destruct (c =? 92)%N eqn:E92.
      * apply N.eqb_eq in E92. subst c. cbn. rewrite IH. reflexivity.
      * destruct (c =? 34)%N eqn:E34.
        -- apply N.eqb_eq in E34. subst c. cbn. rewrite IH. reflexivity.
        -- cbn [app unescape]. rewrite E92, IH. reflexivity.
Qed.

End ListenerMore.

(** ** Properties of the thread title *)

Module TitleFacts.

Import Title.

Lemma lstrip_elem_of (s : pystr) x : x ∈ PyStr.lstrip s -> x ∈ s.
Proof.
  induction s as [|c s IH]; [auto|]. cbn [PyStr.lstrip].
  destruct (PyStr.isspace c); [|auto]. intros H. right. apply IH, H.
Qed.

Lemma strip_elem_of (s : pystr) x : x ∈ PyStr.strip s -> x ∈ s.
Proof.
  unfold PyStr.strip. intros H.
  apply list_elem_of_In, in_rev, list_elem_of_In in H.
  apply lstrip_elem_of in H.
  apply list_elem_of_In, in_rev, list_elem_of_In in H.
  apply lstrip_elem_of, H.
Qed.

Lemma first_line_no_newline (s : pystr) : 10%N ∉ first_line s.
Proof.
  induction s as [|c s IH]; [apply not_elem_of_nil|]. cbn [first_line].
  destruct (c =? 10)%N eqn:E; [apply not_elem_of_nil|].
  apply not_elem_of_cons. split; [|exact IH].
  apply N.eqb_neq in E. congruence.
Qed.

Lemma shorten_length (line : pystr) : length (shorten line) <= 150.
Proof.
  unfold shorten. destruct (150 <? length line) eqn:E.
  - apply Nat.ltb_lt in E. rewrite length_app, length_take.
    change (length (py "...")) with 3. lia.
  - apply Nat.ltb_ge in E. exact E.
Qed.

Lemma shorten_no_newline (line : pystr) :
  10%N ∉ line -> 10%N ∉ shorten line.
Proof.
  intros Hl. unfold shorten. destruct (150 <? length line); [|exact Hl].
  intros H. apply elem_of_app in H as [H|H].
  - apply Hl. apply (subseteq_take 147 line), H.
  - assert (Hno : 10%N ∉ py "...")
      by (apply (bool_decide_unpack _); vm_compute; exact I).
    exact (Hno H).
Qed.

Lemma shorten_truthy (line : pystr) :
  PyStr.truthy line = true -> PyStr.truthy (shorten line) = true.
Proof.
  unfold shorten. destruct (150 <? length line) eqn:E; [|auto].
  intros _. destruct line as [|c line]; [discriminate|reflexivity].
Qed.

Lemma extract_chat_title_bounds (transcript : option pystr) (title : pystr) :
  extract_chat_title transcript = Some title ->
  length title <= 150 /\ 10%N ∉ title.
Proof.
  unfold extract_chat_title.
  destruct transcript as [content|]; [|discriminate].
  destruct (find start_tag content 0) as [start|]; [|discriminate].
  destruct (find end_tag content (start + length start_tag)) as [stop|];
    [|discriminate].
  intros [= <-]. split; [apply shorten_length|].
  apply shorten_no_newline. intros H. apply strip_elem_of in H.
  exact (first_line_no_newline _ H).
Qed.

(** X12. A title that [extract_chat_title] returns has at most 150
    characters and no line break. *)
Theorem title_is_one_short_line (transcript : option pystr) (title : pystr) :
  extract_chat_title transcript = Some title ->
  length title <= 150 /\ 10%N ∉ title.
Proof. apply extract_chat_title_bounds. Qed.

Lemma title_is_one_short_line_witness :
  let title := py "fix the login page" in
  length title <= 150 /\ 10%N ∉ title.
Proof.
  apply (title_is_one_short_line
           (Some (py "<user_query>" ++ [10%N] ++ py "  fix the login page "
                  ++ [10%N] ++ py "and the tests" ++ [10%N]
                  ++ py "</user_query>"))).
  vm_compute. reflexivity.
Defined.

(** X13. The title of the root message [ensure_thread] posts is never
    empty, has at most 150 characters and no line break, whatever the
    transcript holds and whether or not it can be read; the message is that
    title between [":thread: *"] and ["*"]. *)
Theorem thread_title_never_empty (transcript : option pystr) :
  PyStr.truthy (Title.thread_title transcript) = true
  /\ length (Title.thread_title transcript) <= 150
  /\ (10%N ∉ Title.thread_title transcript)
  /\ length (thread_message transcript) <= 161
  /\ (10%N ∉ thread_message transcript).
Proof.
  assert (Hdef : PyStr.truthy default_title = true
                 /\ length default_title <= 150 /\ 10%N ∉ default_title).
  { split; [reflexivity|]. split; [vm_compute; lia|].
    apply (bool_decide_unpack _). vm_compute. exact I. }
  assert (Ht : PyStr.truthy (thread_title transcript) = true
               /\ length (thread_title transcript) <= 150
               /\ 10%N ∉ thread_title transcript).
  { unfold thread_title.
    destruct (extract_chat_title transcript) as [title|] eqn:E;
      [|exact Hdef].
    destruct (PyStr.truthy title) eqn:Htr; [|exact Hdef].
    split; [exact Htr|]. apply (extract_chat_title_bounds transcript title E). }
  destruct Ht as (H1 & H2 & H3). repeat split; auto.
  - unfold thread_message. rewrite !length_app.
    change (length (py ":thread: *")) with 10.
    change (length (py "*")) with 1. lia.
  - unfold thread_message. intros H.
    apply elem_of_app in H as [H|H];
      [|apply elem_of_app in H as [H|H]; [exact (H3 H)|]].
    + revert H. apply (bool_decide_unpack _). vm_compute. exact I.
    + revert H. apply (bool_decide_unpack _). vm_compute. exact I.
Qed.

(** *** Finding the tags *)

Lemma starts_with_spec (sub s : pystr) :
  starts_with sub s = true <-> exists rest, s = sub ++ rest.
Proof.
  revert s. induction sub as [|a sub IH]; intros s.
  - split; [intros _; exists s; reflexivity|reflexivity].
  - destruct s as [|b s]; cbn [starts_with].
    + split; [discriminate|]. intros [rest H]. discriminate.
    + rewrite andb_true_iff, N.eqb_eq, IH. split.
      * intros [-> [rest ->]]. exists rest. reflexivity.
      * intros [rest [= -> ->]]. split; [reflexivity|]. exists rest. reflexivity.
Qed.

Lemma occurs_at_0 (sub s : pystr) :
  occurs_at sub s 0 <-> starts_with sub s = true.
Proof.
  rewrite starts_with_spec. unfold occurs_at. split.
  - intros (pre & rest & -> & Hlen). destruct pre; [|discriminate].
    exists rest. reflexivity.
  - intros [rest ->]. exists [], rest. split; reflexivity.
Qed.

Lemma occurs_at_S (sub : pystr) c s j :
  occurs_at sub (c :: s) (S j) <-> occurs_at sub s j.
Proof.
  unfold occurs_at. split.
  - intros (pre & rest & Heq & Hlen). destruct pre as [|c' pre]; [discriminate|].
    injection Heq as -> ->. injection Hlen as Hlen.
    exists pre, rest. split; [reflexivity|exact Hlen].
  - intros (pre & rest & -> & Hlen). exists (c :: pre), rest.
    split; [reflexivity|]. simpl. rewrite Hlen. reflexivity.
Qed.

Lemma occurs_at_length (sub s : pystr) j :
  occurs_at sub s j -> j + length sub <= length s.
Proof.
  intros (pre & rest & -> & <-). rewrite !length_app. lia.
Qed.

Lemma occurs_at_drop (sub s : pystr) n j :
  n <= length s -> occurs_at sub (drop n s) j <-> occurs_at sub s (n + j).
Proof.
  revert s. induction n as [|n IH]; intros s Hn; [reflexivity|].
  destruct s as [|c s]; [simpl in Hn; lia|].
  cbn [drop Nat.add]. rewrite occurs_at_S. apply IH. simpl in Hn. lia.
Qed.

(** [find_from] returns the first place at which [sub] occurs. *)
Lemma find_from_Some (sub s : pystr) i k :
  find_from sub s i = Some k ->
  exists j, k = i + j /\ occurs_at sub s j
            /\ forall j', occurs_at sub s j' -> j <= j'.
Proof.
  revert i. induction s as [|c s IH]; intros i; cbn [find_from].
  - destruct (starts_with sub []) eqn:E; [|discriminate].
    intros [= <-]. exists 0. split; [lia|]. split; [apply occurs_at_0, E|].
    intros j' _. lia.
  - destruct (starts_with sub (c :: s)) eqn:E.
    + intros [= <-]. exists 0. split; [lia|]. split; [apply occurs_at_0, E|].
      intros j' _. lia.
    + intros H. destruct (IH _ H) as (j & -> & Hocc & Hmin).
      exists (S j). split; [lia|]. split; [apply occurs_at_S, Hocc|].
      intros [|j'] Hj'.
      * apply occurs_at_0 in Hj'. congruence.
      * apply occurs_at_S in Hj'. specialize (Hmin _ Hj'). lia.
Qed.

Lemma find_from_None (sub s : pystr) i :
  find_from sub s i = None -> forall j, ~ occurs_at sub s j.
Proof.
  revert i. induction s as [|c s IH]; intros i; cbn [find_from].
  - destruct (starts_with sub []) eqn:E; [discriminate|].
    intros _ j Hocc. pose proof (occurs_at_length _ _ _ Hocc) as Hl.
    simpl in Hl. assert (j = 0) by lia. subst j.
    apply occurs_at_0 in Hocc. congruence.
  - destruct (starts_with sub (c :: s)) eqn:E; [discriminate|].
    intros H [|j] Hocc.
    + apply occurs_at_0 in Hocc. congruence.
    + apply occurs_at_S in Hocc. exact (IH _ H j Hocc).
Qed.

Lemma find_Some (sub s : pystr) start k :
  find sub s start = Some k ->
  start <= k /\ occurs_at sub s k
  /\ forall j, start <= j -> occurs_at sub s j -> k <= j.
Proof.
  unfold find. destruct (start <=? length s) eqn:E; [|discriminate].
  apply Nat.leb_le in E. intros H.
  destruct (find_from_Some _ _ _ _ H) as (j & -> & Hocc & Hmin).
  split; [lia|]. split; [apply occurs_at_drop; assumption|].
  intros j' Hle Hocc'.
  replace j' with (start + (j' - start)) in Hocc' by lia.
  apply occurs_at_drop in Hocc'; [|exact E].
  specialize (Hmin _ Hocc'). lia.
Qed.

Lemma find_None (sub s : pystr) start :
  find sub s start = None ->
  forall j, start <= j -> ~ occurs_at sub s j.
Proof.
  unfold find. destruct (start <=? length s) eqn:E.
  - apply Nat.leb_le in E. intros H j Hle Hocc.
    replace j with (start + (j - start)) in Hocc by lia.
    apply occurs_at_drop in Hocc; [|exact E].
    exact (find_from_None _ _ _ H _ Hocc).
  - apply Nat.leb_gt in E. intros _ j Hle Hocc.
    apply occurs_at_length in Hocc. lia.
Qed.

Lemma slice_between (s pre mid rest : pystr) :
  s = pre ++ mid ++ rest ->
  slice s (length pre) (length pre + length mid) = mid.
Proof.
  intros ->. unfold slice. rewrite drop_app_length.
  replace (length pre + length mid - length pre) with (length mid) by lia.
  apply take_app_length.
Qed.

(** X14. [extract_chat_title] returns nothing exactly when the transcript
    does not hold the opening tag with the closing tag somewhere after it.
    The title it returns is made from the text between the first opening
    tag and the first closing tag after that: trimmed, cut to its first
    line, trimmed again and shortened. *)
Theorem title_comes_from_first_query (content : pystr) :
  (extract_chat_title (Some content) = None
   <-> ~ exists pre query post,
           content = pre ++ start_tag ++ query ++ end_tag ++ post)
  /\ forall title,
       extract_chat_title (Some content) = Some title ->
       exists pre query post,
         content = pre ++ start_tag ++ query ++ end_tag ++ post
         /\ (forall j, occurs_at start_tag content j -> length pre <= j)
         /\ (forall j, occurs_at end_tag query j -> False)
         /\ title
            = shorten
                (PyStr.strip (first_line (PyStr.strip query))).
Proof.
  assert (Hsome : forall title,
             extract_chat_title (Some content) = Some title ->
             exists pre query post,
               content = pre ++ start_tag ++ query ++ end_tag ++ post
               /\ (forall j, occurs_at start_tag content j -> length pre <= j)
               /\ (forall j, occurs_at end_tag query j -> False)
               /\ title
                  = shorten
                      (PyStr.strip (first_line (PyStr.strip query)))).
  { intros title. unfold extract_chat_title.
    destruct (find start_tag content 0) as [start|] eqn:Hs; [|discriminate].
    destruct (find end_tag content (start + length start_tag))
      as [stop|] eqn:He; [|discriminate].
    intros [= <-].
    apply find_Some in Hs as (_ & (pre & rest & Hc & Hpre) & Hfirst).
    apply find_Some in He as (Hle & (pre2 & post & Hc2 & Hpre2) & Hefirst).
    (* the text between the two tags *)
    assert (Hq : exists query, pre2 = pre ++ start_tag ++ query).
    { exists (drop (start + length start_tag) pre2).
      rewrite app_assoc.
      rewrite <- (take_drop (start + length start_tag) pre2) at 1.
      f_equal.
      assert (Ht : take (start + length start_tag) content
                   = pre ++ start_tag).
      { rewrite Hc, app_assoc. apply take_app_length'.
        rewrite length_app. lia. }
      rewrite <- Ht, Hc2. rewrite take_app_le by lia. reflexivity. }
    destruct Hq as [query ->].
    exists pre, query, post. split; [rewrite Hc2, <- !app_assoc; reflexivity|].
    split; [intros j Hj; rewrite Hpre; apply Hfirst; [lia|exact Hj]|].
    split.
    - intros j (a & b & Hquery & Ha).
      assert (Hocc : occurs_at end_tag content
                       (length pre + length start_tag + j)).
      { exists (pre ++ start_tag ++ a), (b ++ end_tag ++ post). split.
        - rewrite Hc2, Hquery, <- !app_assoc. reflexivity.
        - rewrite !length_app. lia. }
      apply Hefirst in Hocc; [|lia].
      rewrite <- Hpre2, !length_app, Hquery, !length_app in Hocc.
      change (length end_tag) with 13 in Hocc. lia.
    - assert (Hslice : slice content (start + length start_tag) stop = query).
      { replace (start + length start_tag) with (length (pre ++ start_tag))
          by (rewrite length_app; lia).
        replace stop with (length (pre ++ start_tag) + length query)
          by (rewrite <- Hpre2, !length_app; lia).
        apply (slice_between content (pre ++ start_tag) query
                 (end_tag ++ post)).
        rewrite Hc2, <- !app_assoc. reflexivity. }
      change (start + 12) with (start + length start_tag).
      rewrite Hslice. reflexivity. }
  split; [|exact Hsome].
  split.
  - intros Hnone (pre & query & post & Hc).
    unfold extract_chat_title in Hnone.
    destruct (find start_tag content 0) as [start|] eqn:Hs.
    + destruct (find end_tag content (start + length start_tag))
        as [stop|] eqn:He; [discriminate|].
      apply find_Some in Hs as (_ & _ & Hfirst).
      assert (Hstart : start <= length pre).
      { apply Hfirst; [lia|]. exists pre, (query ++ end_tag ++ post).
        split; [exact Hc|reflexivity]. }
      apply (find_None _ _ _ He
               (length pre + length start_tag + length query)); [lia|].
      exists (pre ++ start_tag ++ query), post. split.
      * rewrite Hc, <- !app_assoc. reflexivity.
      * rewrite !length_app. lia.
    + apply (find_None _ _ _ Hs (length pre)); [lia|].
      exists pre, (query ++ end_tag ++ post). split; [exact Hc|reflexivity].
  - intros Hno. destruct (extract_chat_title (Some content)) as [title|] eqn:E;
      [|reflexivity].
    exfalso. apply Hno.
    destruct (Hsome title eq_refl) as (pre & query & post & Hc & _).
    exists pre, query, post. exact Hc.
Qed.

Lemma title_comes_from_first_query_witness :
  let content := py "<user_query>" ++ [10%N] ++ py "fix the login page"
                 ++ [10%N] ++ py "</user_query>" in
  exists pre query post,
    content = pre ++ start_tag ++ query ++ end_tag ++ post
    /\ (forall j, occurs_at start_tag content j -> length pre <= j)
    /\ (forall j, occurs_at end_tag query j -> False)
    /\ py "fix the login page"
       = shorten (PyStr.strip (first_line (PyStr.strip query))).
Proof.
  intros content.
  apply (proj2 (title_comes_from_first_query content)).
  vm_compute. reflexivity.
Defined.

End TitleFacts.

(** ** Properties of [ensure_thread] and [post_message] *)

Module HooksFacts.

Import Hooks.

Section Remote.
Variable SLACK_CHANNEL_ID : pystr.
Variable chat_postMessage : nat -> payload -> option post_response.

Local Abbreviation ensure_thread :=
  (Hooks.ensure_thread SLACK_CHANNEL_ID chat_postMessage).
Local Abbreviation post_message :=
  (Hooks.post_message SLACK_CHANNEL_ID chat_postMessage).

(** The payload that opens a thread. *)
Local Abbreviation opening transcript :=
  (Payload SLACK_CHANNEL_ID (Title.thread_message transcript) None).

Lemma create_thread_cases cid transcript w :
  create_thread SLACK_CHANNEL_ID chat_postMessage cid transcript w
  = match new_thread (chat_postMessage (length (posts w))
                        (opening transcript)) with
    | Some ts =>
        (Some ts,
         HookWorld (Store.save_thread_ts cid ts (threads w))
                   (posts w ++ [opening transcript]))
    | None =>
        (match chat_postMessage (length (posts w)) (opening transcript) with
         | Some r => if post_ok r then post_ts r else None
         | None => None
         end,
         HookWorld (threads w) (posts w ++ [opening transcript]))
    end.
Proof.
  unfold create_thread, slack_post, new_thread.
  destruct (chat_postMessage (length (posts w)) (opening transcript))
    as [[[] [ts|]]|]; cbn; try reflexivity.
  destruct (PyStr.truthy ts); reflexivity.
Qed.

(** X15. When a conversation has no thread yet, the store has room and
    [chat.postMessage] answers with a thread identifier, [ensure_thread]
    posts the opening message once, stores the identifier and returns it.
    A later [ensure_thread] for the conversation returns the same
    identifier without posting or writing anything for as long as the link
    is in the store, in particular right after the creation; it says
    nothing of a store from which retention has deleted the link. *)
Theorem ensure_thread_creates_once cid transcript ts w :
  Listener.opt_truthy (Store.get_thread_ts (threads w) cid) = false ->
  Store.fits (threads w) cid ->
  new_thread (chat_postMessage (length (posts w)) (opening transcript))
  = Some ts ->
  let r := ensure_thread cid transcript w in
  r.1 = Some ts
  /\ posts r.2 = posts w ++ [opening transcript]
  /\ Store.get_thread_ts (threads r.2) cid = Some ts
  /\ (forall transcript', ensure_thread cid transcript' r.2 = (Some ts, r.2))
  /\ (forall w' transcript',
        Store.get_thread_ts (threads w') cid = Some ts ->
        ensure_thread cid transcript' w' = (Some ts, w')).
Proof.
  intros Hnone Hfit Hnew r. unfold r, Hooks.ensure_thread.
  rewrite Hnone, create_thread_cases, Hnew. cbn [fst snd posts threads].
  assert (Hget : Store.get_thread_ts
                   (Store.save_thread_ts cid ts (threads w)) cid = Some ts).
  { apply (StoreMore.load_save_thread_ts_fits _ _ ts) in Hfit.
    unfold Store.get_thread_ts. rewrite Hfit, DictFacts.get_set_eq.
    reflexivity. }
  assert (Htruthy : PyStr.truthy ts = true).
  { unfold new_thread in Hnew.
    destruct (chat_postMessage _ _) as [[[] [ts'|]]|];
      cbn [post_ok post_ts] in Hnew; try discriminate.
    destruct (PyStr.truthy ts') eqn:E; [|discriminate].
    injection Hnew as <-. exact E. }
  split; [reflexivity|]. split; [reflexivity|]. split; [exact Hget|].
  split.
  - intros transcript'. rewrite Hget.
    cbn [Listener.opt_truthy]. rewrite Htruthy. reflexivity.
  - intros w' transcript' Hstored. rewrite Hstored.
    cbn [Listener.opt_truthy]. rewrite Htruthy. reflexivity.
Qed.

(** X16. When a conversation has no thread yet and [chat.postMessage]
    raises, answers without [ok], or answers without a thread identifier,
    [ensure_thread] has posted once, leaves the thread file as it was and
    returns nothing that counts as a thread. *)
Theorem ensure_thread_failure_keeps_store cid transcript w :
  Listener.opt_truthy (Store.get_thread_ts (threads w) cid) = false ->
  new_thread (chat_postMessage (length (posts w)) (opening transcript))
  = None ->
  let r := ensure_thread cid transcript w in
  Listener.opt_truthy r.1 = false
  /\ threads r.2 = threads w
  /\ posts r.2 = posts w ++ [opening transcript].
Proof.
  intros Hnone Hnew r. unfold r, Hooks.ensure_thread.
  rewrite Hnone, create_thread_cases, Hnew. cbn [fst snd posts threads].
  split; [|split; reflexivity].
  unfold new_thread in Hnew.
  destruct (chat_postMessage _ _) as [[[] [ts'|]]|]; try reflexivity.
  cbn [post_ok post_ts Listener.opt_truthy] in *.
  destruct (PyStr.truthy ts'); [discriminate|reflexivity].
Qed.

(** X17. [post_message] returns what [ensure_thread] returned, whatever
    [chat.postMessage] answers to the message itself. The message is the
    last post made, exactly one post after those of [ensure_thread]: in the
    thread when there is one, and as a top-level message when the thread
    could not be created. *)
Theorem post_message_posts_once text cid transcript w :
  let e := ensure_thread cid transcript w in
  let r := post_message text cid transcript w in
  r.1 = e.1
  /\ threads r.2 = threads e.2
  /\ posts r.2
     = posts e.2
       ++ [Payload SLACK_CHANNEL_ID text
             (if Listener.opt_truthy e.1 then e.1 else None)]
  /\ (Listener.opt_truthy (Store.get_thread_ts (threads w) cid) = true ->
      posts r.2
      = posts w ++ [Payload SLACK_CHANNEL_ID text
                      (Store.get_thread_ts (threads w) cid)])
  /\ (Listener.opt_truthy (Store.get_thread_ts (threads w) cid) = false ->
      new_thread (chat_postMessage (length (posts w)) (opening transcript))
      = None ->
      posts r.2
      = posts w ++ [opening transcript;
                    Payload SLACK_CHANNEL_ID text None]).
Proof.
  intros e r. unfold r, Hooks.post_message. fold e.
  destruct e as [thread_ts w1] eqn:He. cbn [fst snd slack_post posts threads].
  split; [reflexivity|]. split; [reflexivity|]. split; [reflexivity|]. split.
  - intros Hhas. unfold e, Hooks.ensure_thread in He. rewrite Hhas in He.
    injection He as <- <-. rewrite Hhas. reflexivity.
  - intros Hnone Hnew. unfold e, Hooks.ensure_thread in He.
    rewrite Hnone, create_thread_cases, Hnew in He.
    injection He as <- <-. cbn [posts].
    assert (Hf : Listener.opt_truthy
                   match chat_postMessage (length (posts w))
                           (opening transcript) with
                   | Some r0 => if post_ok r0 then post_ts r0 else None
                   | None => None
                   end = false).
    { unfold new_thread in Hnew.
      destruct (chat_postMessage _ _) as [[[] [ts'|]]|]; try reflexivity.
      cbn [post_ok post_ts Listener.opt_truthy] in *.
      destruct (PyStr.truthy ts'); [discriminate|reflexivity]. }
    rewrite Hf, <- app_assoc. reflexivity.
Qed.

End Remote.

Lemma ensure_thread_creates_once_witness :
  let cid := py "conv-1" in
  let ts := py "1700000000." ++ [N.of_nat 1000] in
  let r := Hooks.ensure_thread (py "C0CHANNEL") accepting_remote cid None
             empty_hook_world in
  r.1 = Some ts
  /\ posts r.2
     = posts empty_hook_world
       ++ [Payload (py "C0CHANNEL") (Title.thread_message None) None]
  /\ Store.get_thread_ts (threads r.2) cid = Some ts
  /\ (forall transcript',
        Hooks.ensure_thread (py "C0CHANNEL") accepting_remote cid transcript'
          r.2 = (Some ts, r.2))
  /\ (forall w' transcript',
        Store.get_thread_ts (threads w') cid = Some ts ->
        Hooks.ensure_thread (py "C0CHANNEL") accepting_remote cid transcript'
          w' = (Some ts, w')).
Proof.
  apply (ensure_thread_creates_once (py "C0CHANNEL") accepting_remote
           (py "conv-1") None _ empty_hook_world).
  - reflexivity.
  - left. vm_compute. lia.
  - reflexivity.
Defined.

Lemma ensure_thread_failure_keeps_store_witness :
  let r := Hooks.ensure_thread (py "C0CHANNEL") failing_remote (py "conv-1")
             None empty_hook_world in
  Listener.opt_truthy r.1 = false
  /\ threads r.2 = threads empty_hook_world
  /\ posts r.2
     = posts empty_hook_world
       ++ [Payload (py "C0CHANNEL") (Title.thread_message None) None].
Proof.
  apply (ensure_thread_failure_keeps_store (py "C0CHANNEL") failing_remote
           (py "conv-1") None empty_hook_world).
  - reflexivity.
  - reflexivity.
Defined.

Lemma post_message_posts_once_witness :
  let w := empty_hook_world in
  let r := Hooks.post_message (py "C0CHANNEL") failing_remote (py "hello")
             (py "conv-1") None w in
  posts r.2
  = posts w ++ [Payload (py "C0CHANNEL") (Title.thread_message None) None;
                Payload (py "C0CHANNEL") (py "hello") None].
Proof.
  apply (post_message_posts_once (py "C0CHANNEL") failing_remote (py "hello")
           (py "conv-1") None empty_hook_world).
  - reflexivity.
  - reflexivity.
Defined.

End HooksFacts.

(** ** The loop on JSON replies, and the retry after a failed injection *)

Module ListenerRetry.

Import Listener ListenerFacts ListenerMore.

Lemma most_recent_truthy (file : Store.document) (cid thread_ts : pystr) :
  Store.get_most_recent_thread file = Some (cid, thread_ts) ->
  PyStr.truthy thread_ts = true.
Proof.
  unfold Store.get_most_recent_thread.
  destruct (Store._load_state file) as [|kv0 st0]; [discriminate|].
  destruct (StoreFacts.scan_inv (kv0 :: st0) None (py "0"))
    as [[Hs _]|(pre & c & e & post & _ & Hs & Hlt & _)];
    rewrite Hs; [discriminate|].
  destruct (PyStr.truthy c); [|discriminate].
  intros [= _ <-]. apply StoreMore.lt_zero_truthy, Hlt.
Qed.

Lemma default_fmap_JStr (o : option pystr) :
  default (JStr []) (JStr <$> o) = JStr (default [] o).
Proof. destruct o; reflexivity. Qed.

Lemma jtruthy_fmap_JStr (o : option pystr) :
  jtruthy (JStr <$> o) = opt_truthy o.
Proof. destruct o; reflexivity. Qed.

Lemma bool_decide_fmap_JStr (u b : option pystr) :
  bool_decide (JStr <$> u = JStr <$> b) = bool_decide (u = b).
Proof.
  apply bool_decide_ext. split; [|intros ->; reflexivity].
  destruct u, b; simpl; congruence.
Qed.

Section Loop.
Variable osascript : nat -> pystr -> option exn.
Variables (bot_user_id : option pystr) (shortcut_key : pystr).

Local Abbreviation after :=
  (Listener.after osascript bot_user_id shortcut_key).
Local Abbreviation after_ticks :=
  (Listener.after_ticks osascript bot_user_id shortcut_key).
Local Abbreviation handle_message :=
  (Listener.handle_message osascript bot_user_id shortcut_key).
Local Abbreviation tick := (Listener.tick osascript bot_user_id shortcut_key).
Local Abbreviation handle_raw_message :=
  (Listener.handle_raw_message osascript bot_user_id shortcut_key).
Local Abbreviation handle_raw_replies :=
  (Listener.handle_raw_replies osascript bot_user_id shortcut_key).
Local Abbreviation raw_tick :=
  (Listener.raw_tick osascript bot_user_id shortcut_key).
Local Abbreviation raw_run_ticks :=
  (Listener.raw_run_ticks osascript bot_user_id shortcut_key).

Lemma handle_message_ok thread_ts last_seen msg w :
  (handle_message thread_ts last_seen msg w).1 = Ok tt.
Proof. rewrite handle_message_cases. reflexivity. Qed.

(** On a reply with documented types the JSON loop body is the typed one. *)
Lemma handle_raw_typed thread_ts last_seen msg w :
  handle_raw_message thread_ts last_seen (raw_of msg) w
  = Done (handle_message thread_ts last_seen msg w).2.
Proof.
  assert (H : handle_raw_message thread_ts last_seen (raw_of msg) w
              = run_M (handle_message thread_ts last_seen msg) w).
  { unfold Listener.handle_raw_message, Listener.handle_message, raw_of.
    cbn [raw_ts raw_bot_id raw_user raw_text].
    rewrite !default_fmap_JStr, jtruthy_fmap_JStr, bool_decide_fmap_JStr.
    fold (msg_ts msg). cbv zeta.
    destruct (PyStr.leb (msg_ts msg) last_seen); [reflexivity|].
    destruct (PyStr.eqb (msg_ts msg) thread_ts); [reflexivity|].
    destruct (opt_truthy (bot_id msg)); [reflexivity|].
    destruct (opt_truthy bot_user_id && bool_decide (user msg = bot_user_id));
      [reflexivity|].
    destruct (negb (PyStr.truthy (PyStr.strip (default [] (text msg)))));
      reflexivity. }
  rewrite H. unfold run_M.
  pose proof (handle_message_ok thread_ts last_seen msg w) as Hok.
  destruct (handle_message thread_ts last_seen msg w) as [[[]|e] w'];
    [reflexivity|discriminate].
Qed.

Lemma handle_raw_replies_app thread_ts last_seen pre rest w :
  handle_raw_replies thread_ts last_seen ((raw_of <$> pre) ++ rest) w
  = handle_raw_replies thread_ts last_seen rest
      (after thread_ts last_seen pre w).
Proof.
  revert w. induction pre as [|msg pre IH]; intros w; [reflexivity|].
  rewrite fmap_cons. cbn [app Listener.handle_raw_replies].
  rewrite handle_raw_typed, after_cons. apply IH.
Qed.










(** X18. A reply whose [ts] is present and is no string makes the tick
    raise a [TypeError]; a reply that is new, is not the root and is not of
    a bot, and whose [text] is present and is no string, makes it raise an
    [AttributeError]. Either way [run_listener] ends there: the replies
    after it and the polls after this one are never read, and the cursors
    moved by the replies before it are not written to the file. *)
Theorem ill_typed_reply_ends_listener
    (p : raw_poll) (rest : list raw_poll) (cid thread_ts : pystr)
    (pre : list message) (bad : raw_message) (post : list raw_message)
    (w : world) :
  let last_seen := cursor (listener_state w) thread_ts in
  let wp := after thread_ts last_seen pre w in
  Store.get_most_recent_thread (raw_threads_file p) = Some (cid, thread_ts) ->
  raw_get_thread_replies p thread_ts last_seen
  = (raw_of <$> pre) ++ bad :: post ->
  (string_or_missing (raw_ts bad) = false ->
   raw_run_ticks (p :: rest) w = Raised TypeError wp)
  /\ (forall t,
        raw_ts bad = JStr <$> t ->
        PyStr.leb (default [] t) last_seen = false ->
        PyStr.eqb (default [] t) thread_ts = false ->
        jtruthy (raw_bot_id bad) = false ->
        opt_truthy bot_user_id
        && bool_decide (raw_user bad = JStr <$> bot_user_id) = false ->
        string_or_missing (raw_text bad) = false ->
        raw_run_ticks (p :: rest) w = Raised AttributeError wp)
  /\ listener_file wp = listener_file w.
Proof.
  intros last_seen wp Hfound Hreplies.
  assert (Hloop : forall e,
             handle_raw_message thread_ts last_seen bad wp = Raised e wp ->
             raw_run_ticks (p :: rest) w = Raised e wp).
  { intros e Hbad. cbn [Listener.raw_run_ticks]. unfold Listener.raw_tick.
    rewrite Hfound, (most_recent_truthy _ _ _ Hfound). cbn [negb]. cbv zeta.
    fold last_seen. rewrite Hreplies, handle_raw_replies_app. fold wp.
    cbn [Listener.handle_raw_replies]. rewrite Hbad. reflexivity. }
  split; [|split].
  - intros Hts. apply Hloop. unfold Listener.handle_raw_message.
    destruct (raw_ts bad) as [[|s|b]|]; try discriminate; reflexivity.
  - intros t Hts Hseen Hroot Hbot Hself Htext. apply Hloop.
    unfold Listener.handle_raw_message.
    rewrite Hts, default_fmap_JStr, Hseen, Hroot, Hbot, Hself.
    destruct (raw_text bad) as [[|s|b]|]; try discriminate; reflexivity.
  - destruct (handle_replies_returns osascript bot_user_id shortcut_key
                thread_ts last_seen pre w) as (w' & Hrun & _ & Hfile).
    unfold wp, Listener.after. rewrite Hrun. exact Hfile.
Qed.

End Loop.


Lemma ill_typed_reply_ends_listener_witness :
  let null_text := RawMessage (Some (JStr (py "1700000002.000300"))) None
                     (Some (JStr (py "U1HUMAN"))) (Some JNull) in
  let p := RawPoll sample_threads
             (fun _ _ => (raw_of <$> [sample_root; sample_reply])
                         ++ null_text :: []) in
  let wp := Listener.after osascript_ok None (py "l") sample_thread
              (cursor (listener_state empty_world) sample_thread)
              [sample_root; sample_reply] empty_world in
  Listener.raw_run_ticks osascript_ok None (py "l") (p :: [p]) empty_world
  = Raised AttributeError wp.
Proof.
  intros null_text p wp.
  apply (ill_typed_reply_ends_listener osascript_ok None (py "l") p [p]
           (py "conv-1") sample_thread [sample_root; sample_reply] null_text
           [] empty_world) with (t := Some (py "1700000002.000300")).
  - vm_compute. reflexivity.
  - reflexivity.
  - reflexivity.
  - vm_compute. reflexivity.
  - vm_compute. reflexivity.
  - reflexivity.
  - reflexivity.
  - reflexivity.
Defined.

End ListenerRetry.
